(** * Verification of the lko-agent monitoring and remediation core

    Shallow embedding of
    - [agent/memory/vector_store.py]  (VectorStore over a FAISS IndexFlatL2),
    - [agent/tools/resource_manager.py] (ResourceManager remediation tiers),
    - [agent/runbooks/engine.py]      (RunbookEngine triggers and actions),
    - [agent_daemon.py]               (AgentDaemon.run scheduling loop).

    Floating-point numbers (embeddings, distances, usages) are modelled as
    rationals [Q]; the only float facts used are sign and monotonicity of
    [1 / (1 + d)], which IEEE rounding preserves. *)

From stdpp Require Import base gmap strings.
From Stdlib Require Import QArith Qpower Lqa ZArith List Sorted Permutation
  Mergesort Orders.
Import ListNotations.
Close Scope Q_scope.

(** Python exceptions that can escape the modelled methods. *)
Inductive PyExc :=
| AssertionError
| IndexError
| ValueError.

(** ** Vector store *)
Module VS.

(** A metadata record is a Python dict from string keys to values. *)
Abbreviation meta := (gmap string string).

(** An embedding: a float32 vector of the configured dimension. *)
Definition vec := list Q.

(** [self.index] (the FAISS flat index, i.e. the list of stored vectors
    in insertion order) and [self.metadata]. *)
Record VectorStore := mkStore {
  index : list vec;
  metadata : list meta
}.

Definition empty_store : VectorStore := mkStore [] [].

(** Squared Euclidean distance, the metric of [faiss.IndexFlatL2]. *)
Fixpoint sqdist (x y : vec) : Q :=
  match x, y with
  | a :: x', b :: y' => ((a - b) * (a - b) + sqdist x' y')%Q
  | _, _ => 0%Q
  end.

(** A FAISS search hit: (distance, label). Labels are int64. *)
Definition hit := (Q * Z)%type.

(** FAISS orders hits by increasing distance, equal distances by
    increasing label. *)
Module HitOrder <: TotalLeBool.
Definition t := hit.
Definition leb (a b : hit) : bool :=
  if Qeq_bool (fst a) (fst b) then Z.leb (snd a) (snd b)
  else Qle_bool (fst a) (fst b).
Theorem leb_total : forall a1 a2, leb a1 a2 = true \/ leb a2 a1 = true.
Proof.
  intros [d1 i1] [d2 i2]; unfold leb; simpl.
  destruct (Qeq_bool d1 d2) eqn:E1.
  - rewrite (proj2 (Qeq_bool_iff d2 d1)).
    + destruct (Z.leb_spec i1 i2); [left|right]; try reflexivity;
      apply Z.leb_le; lia.
    + apply Qeq_bool_iff in E1. now symmetry.
  - assert (E2 : Qeq_bool d2 d1 = false).
    { apply Bool.not_true_iff_false. intros H. apply Qeq_bool_iff in H.
      apply Bool.not_true_iff_false in E1. apply E1, Qeq_bool_iff.
      now symmetry. }
    rewrite E2.
    destruct (Qlt_le_dec d1 d2) as [H|H].
    + left. apply Qle_bool_iff. now apply Qlt_le_weak.
    + right. now apply Qle_bool_iff.
Qed.
End HitOrder.

Module HitSort := Sort HitOrder.

(** Candidate hits: every stored vector with its label (= insertion
    position) and its distance to the query. *)
Definition all_hits (idx : list vec) (q : vec) : list hit :=
  map (fun p => (sqdist q (snd p), Z.of_nat (fst p)))
      (combine (seq 0 (length idx)) idx).

(** [faiss.IndexFlatL2.search(x, k)]: exact brute-force k-nearest
    neighbours. The Python wrapper asserts [k > 0]. The source never asks
    for more hits than stored vectors, so FAISS's padding with label -1
    is not needed. *)
Definition faiss_search (idx : list vec) (q : vec) (k : Z) : PyExc + list hit :=
  if (k <=? 0)%Z then inl AssertionError
  else inr (firstn (Z.to_nat k) (HitSort.sort (all_hits idx q))).

(** Python list indexing [l[i]], negative indices counting from the end. *)
Definition py_index {A} (l : list A) (i : Z) : PyExc + A :=
  let n := Z.of_nat (length l) in
  if ((0 <=? i) && (i <? n))%Z then
    match nth_error l (Z.to_nat i) with Some a => inr a | None => inl IndexError end
  else if ((- n <=? i) && (i <? 0))%Z then
    match nth_error l (Z.to_nat (n + i)) with Some a => inr a | None => inl IndexError end
  else inl IndexError.

(** [similarity = 1 / (1 + dist)] *)
Definition similarity (d : Q) : Q := (1 / (1 + d))%Q.

(** The result loop of [search]:
    [for dist, idx in zip(...): if idx < len(self.metadata): results.append(...)] *)
Fixpoint collect (md : list meta) (hits : list hit) : PyExc + list (meta * Q) :=
  match hits with
  | [] => inr []
  | (d, i) :: rest =>
      if (i <? Z.of_nat (length md))%Z then
        match py_index md i with
        | inl e => inl e
        | inr m =>
            match collect md rest with
            | inl e => inl e
            | inr r => inr ((m, similarity d) :: r)
            end
        end
      else collect md rest
  end.

Section Store.
(** The embedding model ([EmbeddingSystem.embed_text]), an external
    deterministic function from text to a vector. *)
Variable embed : string -> vec.

(** [VectorStore.search(query, k)] *)
Definition search (st : VectorStore) (query : string) (k : Z)
  : PyExc + list (meta * Q) :=
  if Nat.eqb (length (index st)) 0 then inr []
  else
    let q := embed query in
    let k := Z.min k (Z.of_nat (length (index st))) in
    match faiss_search (index st) q k with
    | inl e => inl e
    | inr hits => collect (metadata st) hits
    end.

(** [VectorStore.add(text, metadata_dict)]; [now] is
    [datetime.now().isoformat()]. Returns the new store and the id. *)
Definition add (st : VectorStore) (text : string) (md : meta) (now : string)
  : VectorStore * nat :=
  let md' := <["added_at" := now]> (<["text" := text]> md) in
  let st' := mkStore (index st ++ [embed text]) (metadata st ++ [md']) in
  (st', length (metadata st') - 1).

(** The metadata records of [add_batch]: [zip] stops at the shorter
    list, and the loop reads [datetime.now()] once per record, the [i]-th
    reading being [now i]. *)
Fixpoint stamp_records (texts : list string) (mds : list meta) (now : nat -> string) (i : nat)
  : list meta :=
  match texts, mds with
  | t :: ts, m :: ms => <["added_at" := now i]> (<["text" := t]> m) :: stamp_records ts ms now (S i)
  | _, _ => []
  end.

(** [VectorStore.add_batch(texts, metadata_list)]: one vector per text. *)
Definition add_batch (st : VectorStore) (texts : list string) (mds : list meta)
  (now : nat -> string) : VectorStore :=
  mkStore (index st ++ map embed texts) (metadata st ++ stamp_records texts mds now 0).

End Store.

(** The two persisted artifacts: the FAISS index file and the pickled
    metadata file; [None] when the file does not exist. *)
Record Disk := mkDisk {
  index_file : option (list vec);
  metadata_file : option (list meta)
}.

(** [VectorStore.save()]: writes both files, the store is unchanged. *)
Definition save (st : VectorStore) (_ : Disk) : Disk :=
  mkDisk (Some (index st)) (Some (metadata st)).

(** [VectorStore.load()] *)
Definition load (st : VectorStore) (dk : Disk) : VectorStore :=
  match index_file dk with
  | Some ix =>
      mkStore ix (match metadata_file dk with Some m => m | None => metadata st end)
  | None => mkStore [] (metadata st)   (* self._create_new_index() *)
  end.

(** [VectorStore.__init__]: load when the index file exists, otherwise a
    new empty index; [self.metadata] starts as []. *)
Definition init (dk : Disk) : VectorStore :=
  match index_file dk with
  | Some _ => load empty_store dk
  | None => empty_store
  end.

(** [VectorStore.count()] *)
Definition count (st : VectorStore) : nat := length (index st).

(** Reading a hit back as a [search] result pair. *)
Definition result_of (md : list meta) (h : hit) : meta * Q :=
  (nth (Z.to_nat (snd h)) md ∅, similarity (fst h)).

(** [a] is listed before [b]: strictly higher similarity, or equal
    similarity and lower id. *)
Definition hit_before (a b : hit) : Prop :=
  (similarity (fst b) < similarity (fst a))%Q \/
  ((similarity (fst a) == similarity (fst b))%Q /\ (snd a < snd b)%Z).

(** The invariant [len(embeddings) == len(metadata)]. *)
Definition paired (st : VectorStore) : Prop :=
  length (index st) = length (metadata st).

(** Concrete inputs: a one-dimensional embedder (text length) and the
    artifacts left when the index file exists but the metadata file does
    not. *)
Definition length_embed (s : string) : vec := [inject_Z (Z.of_nat (String.length s))].

Definition disk_index_only : Disk := mkDisk (Some [[0%Q]]) None.

End VS.

(** ** Operating-system state seen through psutil and subprocess *)
Module OS.

Inductive Signal := SIGTERM | SIGKILL.

(** A process: its name, its niceness, whether the agent may signal and
    renice it (otherwise psutil raises AccessDenied), whether it exits
    within the wait window after SIGTERM, and whether it has already left
    the process table when a signal that ends it has just been sent
    without waiting (otherwise it is still listed, exiting or as a zombie,
    until its parent reaps it). *)
Record Proc := mkProc {
  p_name : string;
  p_nice : Z;
  p_permitted : bool;
  p_exits_on_term : bool;
  p_reaped_at_once : bool
}.

(** Observable system state: the process table, the signals sent and the
    events of spawned commands and sleeps. *)
Inductive Event :=
| Spawn (cmd : string)
| Sleep (seconds : Q).

Record Os := mkOs {
  procs : gmap Z Proc;
  signals : list (Z * Signal);
  events : list Event
}.

(** [setpriority] clamps niceness to the Linux range [-20, 19]. *)
Definition clamp_nice (n : Z) : Z := Z.max (-20) (Z.min 19 n).

Definition set_nice (os : Os) (pid : Z) (p : Proc) (n : Z) : Os :=
  mkOs (<[pid := mkProc (p_name p) (clamp_nice n) (p_permitted p) (p_exits_on_term p)
                      (p_reaped_at_once p)]> (procs os))
       (signals os) (events os).

(** Delivering a signal; [exits] says whether the process is gone after. *)
Definition send_signal (os : Os) (pid : Z) (s : Signal) (exits : bool) : Os :=
  mkOs (if exits then delete pid (procs os) else procs os)
       (signals os ++ [(pid, s)]) (events os).

(** Decimal rendering of an int, as in Python f-strings. *)
Definition digit (d : Z) : Ascii.ascii := Ascii.ascii_of_nat (48 + Z.to_nat d).

Fixpoint digits (fuel : nat) (n : Z) (acc : string) : string :=
  match fuel with
  | O => acc
  | S f =>
      let acc' := String.String (digit (n mod 10)) acc in
      if (n <? 10)%Z then acc' else digits f (n / 10) acc'
  end.

Definition str_Z (n : Z) : string :=
  let body := digits (S (Z.to_nat (Z.log2 (Z.abs n)))) (Z.abs n) EmptyString in
  if (n <? 0)%Z then ("-" ++ body)%string else body.

End OS.

(** ** Remediation tiers ([ResourceManager]) *)
Module RM.
Import OS.

(** A result dict: "success", "action", "message", and whether the
    "dry_run" key is present. *)
Record Result := mkResult {
  success : bool;
  action : string;
  message : string;
  dry_run_flag : bool
}.

(** [self.dry_run] and [self.remediation_history]. *)
Record Manager := mkManager {
  dry_run : bool;
  remediation_history : list Result
}.

Definition record (rm : Manager) (r : Result) : Manager :=
  mkManager (dry_run rm) (remediation_history rm ++ [r]).

Local Open Scope string_scope.

(** [renice_process(pid, new_nice=19)] *)
Definition renice_process (rm : Manager) (os : Os) (pid new_nice : Z)
  : Result * Manager * Os :=
  match procs os !! pid with
  | None => (mkResult false "renice" ("Process " ++ str_Z pid ++ " not found") false, rm, os)
  | Some p =>
      let old_nice := p_nice p in
      if (new_nice <=? old_nice)%Z then
        (mkResult false "renice" ("Process already at nice " ++ str_Z old_nice) false, rm, os)
      else if dry_run rm then
        (mkResult true "renice" ("DRY RUN: Would renice PID " ++ str_Z pid ++ " from "
           ++ str_Z old_nice ++ " to " ++ str_Z new_nice) true, rm, os)
      else if negb (p_permitted p) then
        (mkResult false "renice" ("Permission denied for PID " ++ str_Z pid) false, rm, os)
      else
        let r := mkResult true "renice" ("Reniced PID " ++ str_Z pid ++ ": "
                   ++ str_Z old_nice ++ " -> " ++ str_Z new_nice) false in
        (r, record rm r, set_nice os pid p new_nice)
  end.

(** [graceful_stop(pid, wait_seconds=5)]: SIGTERM, then [proc.wait].
    psutil's [wait] rejects a negative timeout with a [ValueError] that
    nothing here catches; by then [terminate()] has already sent SIGTERM. *)
Definition graceful_stop (rm : Manager) (os : Os) (pid wait_seconds : Z)
  : (PyExc + Result) * Manager * Os :=
  match procs os !! pid with
  | None => (inr (mkResult false "graceful_stop" ("Process " ++ str_Z pid ++ " not found") false), rm, os)
  | Some p =>
      let name := p_name p in
      if dry_run rm then
        (inr (mkResult true "graceful_stop" ("DRY RUN: Would send SIGTERM to PID " ++ str_Z pid
           ++ " (" ++ name ++ ")") true), rm, os)
      else if negb (p_permitted p) then
        (inr (mkResult false "graceful_stop" ("Permission denied for PID " ++ str_Z pid) false), rm, os)
      else if (wait_seconds <? 0)%Z then
        (inl ValueError, rm,
         send_signal os pid SIGTERM (p_exits_on_term p && p_reaped_at_once p))
      else
        let os' := send_signal os pid SIGTERM (p_exits_on_term p) in
        let r := if p_exits_on_term p then
                   mkResult true "graceful_stop" ("Process " ++ str_Z pid ++ " (" ++ name
                     ++ ") stopped gracefully") false
                 else
                   mkResult false "graceful_stop" ("Process " ++ str_Z pid
                     ++ " did not stop after " ++ str_Z wait_seconds ++ "s") false in
        (inr r, record rm r, os')
  end.

(** [force_kill(pid)]: SIGKILL, without waiting for the process to exit. *)
Definition force_kill (rm : Manager) (os : Os) (pid : Z) : Result * Manager * Os :=
  match procs os !! pid with
  | None => (mkResult false "force_kill" ("Process " ++ str_Z pid ++ " already gone") false, rm, os)
  | Some p =>
      let name := p_name p in
      if dry_run rm then
        (mkResult true "force_kill" ("DRY RUN: Would send SIGKILL to PID " ++ str_Z pid
           ++ " (" ++ name ++ ")") true, rm, os)
      else if negb (p_permitted p) then
        (mkResult false "force_kill" ("Permission denied for PID " ++ str_Z pid) false, rm, os)
      else
        let r := mkResult true "force_kill" ("Force killed PID " ++ str_Z pid ++ " ("
                   ++ name ++ ")") false in
        (r, record rm r, send_signal os pid SIGKILL (p_reaped_at_once p))
  end.

(** [smart_remediate(pid)]: renice, then in dry-run mode graceful_stop
    and force_kill with their default arguments; an exception of a step
    propagates to the caller. *)
Definition smart_remediate (rm : Manager) (os : Os) (pid : Z)
  : (PyExc + list Result) * Manager * Os :=
  let '(r1, rm1, os1) := renice_process rm os pid 19 in
  if dry_run rm1 then
    match graceful_stop rm1 os1 pid 5 with
    | (inl e, rm2, os2) => (inl e, rm2, os2)
    | (inr r2, rm2, os2) =>
        let '(r3, rm3, os3) := force_kill rm2 os2 pid in
        (inr [r1; r2; r3], rm3, os3)
    end
  else (inr [r1], rm1, os1).

End RM.

(** ** Runbook engine ([RunbookEngine]) *)
Module Engine.
Import OS.
Local Open Scope string_scope.

(** The runbook, trigger and action dicts of the YAML config; [None]
    for an absent key, read through [dict.get(key, default)]. *)
Record Trigger := mkTrigger {
  t_type : option string;
  t_filesystem : option string;
  t_threshold : option Q;
  t_operator : option string
}.

Definition empty_trigger : Trigger := mkTrigger None None None None.

Record Action := mkAction {
  a_type : option string;
  a_message : option string;
  a_severity : option string;
  a_run : option string;
  a_timeout : option Q;
  a_seconds : option Q
}.

Record Runbook := mkRunbook {
  rb_name : option string;
  rb_enabled : option bool;
  rb_trigger : option Trigger;
  rb_actions : option (list Action)
}.

(** An entry of [context['disk_usage']]. *)
Record DiskEntry := mkDisk {
  filesystem : string;
  usage_percent : Q
}.

Record Context := mkContext {
  ctx_disk_usage : option (list DiskEntry);
  ctx_memory_usage : option Q
}.

Definition get {A} (o : option A) (default : A) : A :=
  match o with Some a => a | None => default end.

Definition Qgt_bool (x y : Q) : bool := negb (Qle_bool x y).
Definition Qge_bool (x y : Q) : bool := Qle_bool y x.

(** The loop of [_check_disk_trigger]. *)
Fixpoint disk_loop (disks : list DiskEntry) (fs : string) (threshold : Q) (operator : string)
  : bool :=
  match disks with
  | [] => false
  | disk :: rest =>
      if String.eqb (filesystem disk) fs then
        let usage := usage_percent disk in
        if String.eqb operator ">" && Qgt_bool usage threshold then true
        else if String.eqb operator ">=" && Qge_bool usage threshold then true
        else disk_loop rest fs threshold operator
      else disk_loop rest fs threshold operator
  end.

(** [_check_disk_trigger(trigger, context)] *)
Definition check_disk_trigger (trigger : Trigger) (context : Context) : bool :=
  match ctx_disk_usage context with
  | None => false
  | Some disks =>
      disk_loop disks (get (t_filesystem trigger) "/") (get (t_threshold trigger) 90%Q)
                (get (t_operator trigger) ">")
  end.

(** [_check_memory_trigger(trigger, context)] *)
Definition check_memory_trigger (trigger : Trigger) (context : Context) : bool :=
  match ctx_memory_usage context with
  | None => false
  | Some usage =>
      let threshold := get (t_threshold trigger) 85%Q in
      let operator := get (t_operator trigger) ">=" in
      if String.eqb operator ">=" && Qge_bool usage threshold then true
      else if String.eqb operator ">" && Qgt_bool usage threshold then true
      else false
  end.

(** [check_trigger(runbook, context)] *)
Definition check_trigger (runbook : Runbook) (context : Context) : bool :=
  if negb (get (rb_enabled runbook) true) then false
  else
    let trigger := get (rb_trigger runbook) empty_trigger in
    match t_type trigger with
    | Some "disk_usage" => check_disk_trigger trigger context
    | Some "memory_usage" => check_memory_trigger trigger context
    | _ => false
    end.

(** An action result dict: "success", "type" (absent for an unknown
    action type) and whether the "dry_run" key is present. *)
Record ActionResult := mkActionResult {
  ar_success : bool;
  ar_type : option string;
  ar_dry_run : bool
}.

Record ExecutionResult := mkExecutionResult {
  runbook : string;
  actions : list ActionResult
}.

Section Execute.
(** [subprocess.run(cmd, shell=True, timeout=t)]: the exit status, or
    [None] when it times out or the spawn fails. *)
Variable run_shell : string -> Q -> option Z.

Definition spawn (os : Os) (cmd : string) : Os :=
  mkOs (procs os) (signals os) (events os ++ [Spawn cmd]).

(** [time.sleep(seconds)] raises ValueError on a negative duration. *)
Definition sleep (os : Os) (seconds : Q) : PyExc + Os :=
  if Qle_bool 0 seconds then inr (mkOs (procs os) (signals os) (events os ++ [Sleep seconds]))
  else inl ValueError.

(** [_execute_alert(action, dry_run)]: only prints. *)
Definition execute_alert (action : Action) (dry_run : bool) : ActionResult :=
  mkActionResult true (Some "alert") false.

(** [_execute_command(action, dry_run)]; a missing "run" key makes
    [subprocess.run(None, ...)] raise, which the bare [except] turns into
    a failure. *)
Definition execute_command (action : Action) (dry_run : bool) (os : Os) : ActionResult * Os :=
  let timeout := get (a_timeout action) 30%Q in
  if dry_run then (mkActionResult true (Some "command") true, os)
  else
    match a_run action with
    | None => (mkActionResult false (Some "command") false, os)
    | Some cmd =>
        let os' := spawn os cmd in
        match run_shell cmd timeout with
        | Some 0%Z => (mkActionResult true (Some "command") false, os')
        | _ => (mkActionResult false (Some "command") false, os')
        end
    end.

(** [_execute_wait(action, dry_run)] *)
Definition execute_wait (action : Action) (dry_run : bool) (os : Os)
  : PyExc + (ActionResult * Os) :=
  let seconds := get (a_seconds action) 5%Q in
  if dry_run then inr (mkActionResult true (Some "wait") false, os)
  else
    match sleep os seconds with
    | inl e => inl e
    | inr os' => inr (mkActionResult true (Some "wait") false, os')
    end.

(** [action_type == name], with [action_type = action.get('type')]. *)
Definition is_type (action_type : option string) (name : string) : bool :=
  match action_type with Some t => String.eqb t name | None => false end.

(** One iteration of the loop of [execute_runbook]. *)
Definition execute_action (dry_run : bool) (os : Os) (action : Action)
  : PyExc + (ActionResult * Os) :=
  let action_type := a_type action in
  if is_type action_type "alert" then inr (execute_alert action dry_run, os)
  else if is_type action_type "command" then inr (execute_command action dry_run os)
  else if is_type action_type "wait" then execute_wait action dry_run os
  else inr (mkActionResult false None false, os).

Fixpoint run_actions (dry_run : bool) (acts : list Action) (os : Os)
  : PyExc + (list ActionResult * Os) :=
  match acts with
  | [] => inr ([], os)
  | action :: rest =>
      match execute_action dry_run os action with
      | inl e => inl e
      | inr (result, os1) =>
          match run_actions dry_run rest os1 with
          | inl e => inl e
          | inr (results, os2) => inr (result :: results, os2)
          end
      end
  end.

(** [execute_runbook(runbook, context, dry_run)] *)
Definition execute_runbook (rb : Runbook) (context : Context) (dry_run : bool) (os : Os)
  : PyExc + (ExecutionResult * Os) :=
  let name := get (rb_name rb) "unknown" in
  match run_actions dry_run (get (rb_actions rb) []) os with
  | inl e => inl e
  | inr (results, os') => inr (mkExecutionResult name results, os')
  end.

End Execute.

(** The action types [execute_runbook] dispatches on. *)
Definition known_type (a : Action) : bool :=
  is_type (a_type a) "alert" || is_type (a_type a) "command" || is_type (a_type a) "wait".

(** [find_matching_runbooks(context)] over [self.runbooks]. *)
Fixpoint find_matching_runbooks (runbooks : list Runbook) (context : Context) : list Runbook :=
  match runbooks with
  | [] => []
  | runbook :: rest =>
      if check_trigger runbook context then runbook :: find_matching_runbooks rest context
      else find_matching_runbooks rest context
  end.

End Engine.

(** ** Resource-hog detection ([ResourceManager.find_resource_hogs]) *)
Module Hogs.

(** The dict returned by [get_process_info]. *)
Record ProcInfo := mkInfo {
  pid : Z;
  name : string;
  cpu_percent : Q;
  memory_percent : Q;
  nice : Z;
  status : string;
  cmdline : string
}.

(** An entry of [info['reason']]: [f"CPU: {cpu:.1f}%"] or
    [f"Memory: {mem:.1f}%"], kept with the measured value. *)
Inductive Reason :=
| CPU (cpu : Q)
| Memory (mem : Q).

(** [info] with its "reason" key. *)
Record Hog := mkHog {
  info : ProcInfo;
  reason : list Reason
}.

(** A process of the second [psutil.process_iter] pass: its pid and its
    [(cpu_percent(interval=0), memory_percent())], or [None] when psutil
    raised NoSuchProcess or AccessDenied while measuring. *)
Definition sample := (Z * option (Q * Q))%type.

(** [key=lambda x: x['cpu_percent'] + x['memory_percent']] *)
Definition key (h : Hog) : Q := (cpu_percent (info h) + memory_percent (info h))%Q.

(** [sorted(hogs, key=key, reverse=True)]: Python's sort is stable, also
    with [reverse=True], so hogs of equal key keep their scan order. An
    element goes before the first one whose key is not larger. *)
Fixpoint insert_desc (a : Hog) (l : list Hog) : list Hog :=
  match l with
  | [] => [a]
  | b :: l' => if Qle_bool (key b) (key a) then a :: b :: l' else b :: insert_desc a l'
  end.

(** [b] may follow [a] in the sorted list. *)
Definition key_desc (a b : Hog) : Prop := (key b <= key a)%Q.

Fixpoint sort_desc (l : list Hog) : list Hog :=
  match l with
  | [] => []
  | a :: l' => insert_desc a (sort_desc l')
  end.

(** What psutil reads of a live process: [name()], [cpu_percent(interval=1)],
    [memory_percent()], [nice()], [status()] and the first five words of
    [cmdline()] joined by spaces. *)
Record ProcStats := mkStats {
  st_name : string;
  st_cpu : Q;
  st_mem : Q;
  st_nice : Z;
  st_status : string;
  st_cmdline : string
}.

Section Scan.
(** psutil's view of a pid; [None] when it raises NoSuchProcess or
    AccessDenied. *)
Variable read_process : Z -> option ProcStats.

(** [get_process_info(pid)] *)
Definition get_process_info (p : Z) : option ProcInfo :=
  match read_process p with
  | Some s => Some (mkInfo p (st_name s) (st_cpu s) (st_mem s) (st_nice s) (st_status s)
                           (st_cmdline s))
  | None => None
  end.

(** The second loop of [find_resource_hogs]. *)
Fixpoint scan (cpu_threshold memory_threshold : Q) (procs : list sample) : list Hog :=
  match procs with
  | [] => []
  | (_, None) :: rest => scan cpu_threshold memory_threshold rest
  | (p, Some (cpu, mem)) :: rest =>
      if Engine.Qgt_bool cpu cpu_threshold || Engine.Qgt_bool mem memory_threshold then
        match get_process_info p with
        | Some i =>
            mkHog i ((if Engine.Qgt_bool cpu cpu_threshold then [CPU cpu] else []) ++
                     (if Engine.Qgt_bool mem memory_threshold then [Memory mem] else []))
            :: scan cpu_threshold memory_threshold rest
        | None => scan cpu_threshold memory_threshold rest
        end
      else scan cpu_threshold memory_threshold rest
  end.

(** [find_resource_hogs(cpu_threshold, memory_threshold)]; the first pass
    and [time.sleep(0.5)] only prime psutil's CPU counters. *)
Definition find_resource_hogs (cpu_threshold memory_threshold : Q) (procs : list sample)
  : list Hog :=
  sort_desc (scan cpu_threshold memory_threshold procs).

End Scan.

End Hogs.

(** ** Daemon scheduling loop ([AgentDaemon.run]) *)
Module Daemon.

(** The loop-local timers of [run]. *)
Record Timers := mkTimers {
  last_health_check : Q;
  last_resource_check : Q
}.

(** [last_health_check = 0], [last_resource_check = 0] *)
Definition start : Timers := mkTimers 0 0.

(** Which checks one loop iteration runs. *)
Record Checks := mkChecks {
  ran_health_check : bool;
  ran_resource_check : bool
}.

(** One iteration of [while self.running] at [current_time = time.time()]. *)
Definition tick (health_check_interval resource_check_interval : Q) (tm : Timers)
  (current_time : Q) : Checks * Timers :=
  let h := Qle_bool health_check_interval (current_time - last_health_check tm) in
  let lh := if h then current_time else last_health_check tm in
  let r := Qle_bool resource_check_interval (current_time - last_resource_check tm) in
  let lr := if r then current_time else last_resource_check tm in
  (mkChecks h r, mkTimers lh lr).

(** The loop over successive clock readings. *)
Fixpoint run (hi ri : Q) (tm : Timers) (times : list Q) : list Checks :=
  match times with
  | [] => []
  | t :: rest => let '(c, tm') := tick hi ri tm t in c :: run hi ri tm' rest
  end.

End Daemon.

(** ** Resource check of the daemon ([AgentDaemon.check_resources]) *)
Module DaemonCheck.
Import OS RM Hogs.
Local Open Scope string_scope.








Section Check.
Variable read_process : Z -> option ProcStats.


End Check.

End DaemonCheck.

(** * Proofs *)

Module VSFacts.
Import VS.

Lemma sqdist_nonneg (x y : vec) : (0 <= sqdist x y)%Q.
Proof.
  revert y; induction x as [|a x IH]; intros [|b y]; simpl; try apply Qle_refl.
  apply (Qplus_le_compat 0 _ 0); [|apply IH].
  exact (Qsqr_nonneg (a - b)).
Qed.

Lemma similarity_inv (d : Q) : (similarity d == / (1 + d))%Q.
Proof. unfold similarity, Qdiv. apply Qmult_1_l. Qed.

Lemma similarity_bounds (d : Q) : (0 <= d)%Q -> (0 < similarity d <= 1)%Q.
Proof.
  intros Hd. rewrite similarity_inv.
  assert (H1 : (0 < 1 + d)%Q) by lra.
  split.
  - now apply Qinv_lt_0_compat.
  - apply Qle_shift_inv_r; [exact H1|]. lra.
Qed.

Lemma similarity_strict (d1 d2 : Q) :
  (0 <= d1)%Q -> (d1 < d2)%Q -> (similarity d2 < similarity d1)%Q.
Proof.
  intros H1 H12. rewrite !similarity_inv.
  apply (Qinv_lt_contravar (1 + d1) (1 + d2)); lra.
Qed.

Lemma similarity_eq (d1 d2 : Q) :
  (d1 == d2)%Q -> (similarity d1 == similarity d2)%Q.
Proof. intros H. unfold similarity. now rewrite H. Qed.

Lemma in_combine_seq {A} (l : list A) (s n : nat) (v : A) :
  In (n, v) (combine (seq s (length l)) l) -> s <= n /\ nth_error l (n - s) = Some v.
Proof.
  revert s; induction l as [|a l IH]; intros s H; simpl in H; [contradiction|].
  destruct H as [H|H].
  - injection H as <- <-. rewrite Nat.sub_diag. split; [lia|reflexivity].
  - destruct (IH (S s) H) as [Hs Hn]. split; [lia|].
    replace (n - s) with (S (n - S s)) by lia. exact Hn.
Qed.

Lemma all_hits_spec (idx : list vec) (q : vec) (h : hit) :
  In h (all_hits idx q) ->
  exists n v, snd h = Z.of_nat n /\ nth_error idx n = Some v /\ fst h = sqdist q v.
Proof.
  unfold all_hits. intros H. apply in_map_iff in H as [[n v] [<- Hin]].
  apply in_combine_seq in Hin as [_ Hn]. rewrite Nat.sub_0_r in Hn.
  exists n, v. simpl. auto.
Qed.

Lemma labels_combine_seq {A} (l : list A) (s : nat) :
  map (fun p => Z.of_nat (fst p)) (combine (seq s (length l)) l) =
  map Z.of_nat (seq s (length l)).
Proof.
  revert s; induction l as [|a l IH]; intros s; simpl; [reflexivity|].
  now rewrite IH.
Qed.

Lemma NoDup_labels (s n : nat) : NoDup (map Z.of_nat (seq s n)).
Proof.
  revert s; induction n as [|n IH]; intros s; simpl; constructor; [|apply IH].
  intros Hin. apply in_map_iff in Hin as [m [Hm Hin]].
  apply in_seq in Hin. lia.
Qed.

Lemma all_hits_NoDup (idx : list vec) (q : vec) : NoDup (map snd (all_hits idx q)).
Proof.
  unfold all_hits. rewrite map_map. simpl.
  rewrite labels_combine_seq. apply NoDup_labels.
Qed.

Lemma all_hits_length (idx : list vec) (q : vec) : length (all_hits idx q) = length idx.
Proof.
  unfold all_hits. rewrite length_map, length_combine, length_seq. lia.
Qed.

Lemma sorted_hits_perm (idx : list vec) (q : vec) :
  Permutation (all_hits idx q) (HitSort.sort (all_hits idx q)).
Proof. apply HitSort.Permuted_sort. Qed.

Lemma Sorted_firstn {A} (R : A -> A -> Prop) (n : nat) (l : list A) :
  Sorted R l -> Sorted R (firstn n l).
Proof.
  revert n; induction l as [|a l IH]; intros n H; destruct n; simpl; auto.
  apply Sorted_inv in H as [Hs Hr]. constructor; [now apply IH|].
  destruct n, l as [|b l]; simpl; auto. now apply HdRel_inv in Hr; constructor.
Qed.

Lemma NoDup_firstn_map {A B} (f : A -> B) (n : nat) (l : list A) :
  NoDup (map f l) -> NoDup (map f (firstn n l)).
Proof.
  rewrite <- (firstn_skipn n l) at 1. rewrite map_app.
  apply NoDup_app_remove_r.
Qed.

Lemma Sorted_hit_before (l : list hit) :
  Sorted (fun a b => HitOrder.leb a b = true) l -> NoDup (map snd l) ->
  Forall (fun h => 0 <= fst h)%Q l -> Sorted hit_before l.
Proof.
  induction l as [|a l IH]; intros Hs Hnd Hpos; [constructor|].
  apply Sorted_inv in Hs as [Hs Hr]. inversion Hnd as [|? ? Hnin Hnd']; subst.
  inversion Hpos as [|? ? Ha Hpos']; subst.
  constructor; [now apply IH|].
  destruct l as [|b l]; constructor.
  apply HdRel_inv in Hr. unfold HitOrder.leb in Hr. unfold hit_before.
  assert (Hab : snd a <> snd b) by (intros E; apply Hnin; rewrite E; now left).
  destruct (Qeq_bool (fst a) (fst b)) eqn:E.
  - right. apply Qeq_bool_iff in E. split; [now apply similarity_eq|].
    apply Z.leb_le in Hr. lia.
  - left. apply Qle_bool_iff in Hr. apply similarity_strict; [exact Ha|].
    apply Qle_lteq in Hr as [Hr|Hr]; [exact Hr|].
    apply Qeq_bool_iff in Hr. congruence.
Qed.

Lemma collect_spec (md : list meta) (hits : list hit) :
  Forall (fun h => 0 <= snd h)%Z hits ->
  collect md hits =
  inr (map (result_of md) (filter (fun h => (snd h <? Z.of_nat (length md))%Z) hits)).
Proof.
  induction hits as [|[d i] hits IH]; intros Hpos; [reflexivity|].
  inversion Hpos as [|? ? Hi Hpos']; subst. simpl in Hi |- *.
  destruct (i <? Z.of_nat (length md))%Z eqn:E; [|now apply IH].
  unfold py_index.
  assert (Hb : ((0 <=? i) && (i <? Z.of_nat (length md)))%Z = true).
  { apply andb_true_intro. split; [now apply Z.leb_le|exact E]. }
  rewrite Hb. apply Z.ltb_lt in E.
  rewrite (nth_error_nth' md ∅) by lia.
  rewrite IH by exact Hpos'. reflexivity.
Qed.

Lemma in_firstn_in {A} (n : nat) (l : list A) (x : A) : In x (firstn n l) -> In x l.
Proof. intros H. rewrite <- (firstn_skipn n l). apply in_or_app. now left. Qed.

Lemma filter_all {A} (f : A -> bool) (l : list A) :
  Forall (fun x => f x = true) l -> filter f l = l.
Proof.
  induction 1 as [|x l Hx _ IH]; simpl; [reflexivity|]. now rewrite Hx, IH.
Qed.

Section SortedHits.
Variables (idx : list vec) (q : vec).

Lemma sorted_hits_in (h : hit) :
  In h (HitSort.sort (all_hits idx q)) ->
  exists n v, snd h = Z.of_nat n /\ nth_error idx n = Some v /\ fst h = sqdist q v.
Proof.
  intros H. apply all_hits_spec.
  eapply Permutation_in; [symmetry; apply sorted_hits_perm|exact H].
Qed.

Lemma sorted_hits_label (h : hit) :
  In h (HitSort.sort (all_hits idx q)) -> (0 <= snd h < Z.of_nat (length idx))%Z.
Proof.
  intros H. destruct (sorted_hits_in h H) as (n & v & Hn & Hv & _).
  assert (Hl : n < length idx) by (apply nth_error_Some; congruence). lia.
Qed.

Lemma sorted_hits_NoDup : NoDup (map snd (HitSort.sort (all_hits idx q))).
Proof.
  eapply Permutation_NoDup; [apply Permutation_map, sorted_hits_perm|].
  apply all_hits_NoDup.
Qed.

Lemma sorted_hits_length : length (HitSort.sort (all_hits idx q)) = length idx.
Proof.
  rewrite <- (Permutation_length (sorted_hits_perm idx q)). apply all_hits_length.
Qed.

Lemma topk_props (n : nat) :
  let hits := firstn n (HitSort.sort (all_hits idx q)) in
  Sorted hit_before hits /\
  Forall (fun h => (0 < similarity (fst h) <= 1)%Q /\
     exists m v, snd h = Z.of_nat m /\ nth_error idx m = Some v /\ fst h = sqdist q v) hits /\
  Forall (fun h => 0 <= snd h < Z.of_nat (length idx))%Z hits.
Proof.
  intros hits. split; [|split].
  - apply Sorted_hit_before.
    + apply Sorted_firstn, HitSort.Sorted_sort.
    + apply NoDup_firstn_map, sorted_hits_NoDup.
    + apply Forall_forall. intros h Hh. apply in_firstn_in in Hh.
      destruct (sorted_hits_in h Hh) as (m & v & _ & _ & ->). apply sqdist_nonneg.
  - apply Forall_forall. intros h Hh. apply in_firstn_in in Hh.
    destruct (sorted_hits_in h Hh) as (m & v & Hm & Hv & Hd). split.
    + apply similarity_bounds. rewrite Hd. apply sqdist_nonneg.
    + now exists m, v.
  - apply Forall_forall. intros h Hh. apply in_firstn_in in Hh.
    now apply sorted_hits_label.
Qed.

End SortedHits.

(** [search] on a non-empty store with a positive effective [k]. *)
Lemma search_nonempty (embed : string -> vec) (st : VectorStore) (query : string) (k : Z) :
  count st <> 0 -> (1 <= k)%Z ->
  search embed st query k =
  let hits := firstn (Z.to_nat (Z.min k (Z.of_nat (count st))))
                     (HitSort.sort (all_hits (index st) (embed query))) in
  inr (map (result_of (metadata st))
        (filter (fun h => (snd h <? Z.of_nat (length (metadata st)))%Z) hits)).
Proof.
  intros Hc Hk. unfold search, faiss_search, count in *.
  assert (E : (Z.min k (Z.of_nat (length (index st))) <=? 0)%Z = false)
    by (apply Z.leb_gt; lia).
  apply Nat.eqb_neq in Hc. rewrite Hc, E.
  apply collect_spec.
  destruct (topk_props (index st) (embed query)
             (Z.to_nat (Z.min k (Z.of_nat (length (index st)))))) as (_ & _ & H).
  eapply Forall_impl; [|exact H]. simpl. lia.
Qed.

Lemma search_empty (embed : string -> vec) (st : VectorStore) (query : string) (k : Z) :
  count st = 0 -> search embed st query k = inr [].
Proof. unfold search, count. intros ->. reflexivity. Qed.

Lemma search_nonpositive (embed : string -> vec) (st : VectorStore) (query : string) (k : Z) :
  count st <> 0 -> (k <= 0)%Z -> search embed st query k = inl AssertionError.
Proof.
  intros Hc Hk. unfold search, faiss_search, count in *.
  assert (E : (Z.min k (Z.of_nat (length (index st))) <=? 0)%Z = true)
    by (apply Z.leb_le; lia).
  apply Nat.eqb_neq in Hc. now rewrite Hc, E.
Qed.

(** C1 (amended). On an empty store [search] returns the empty list; on
    a non-empty store with [k <= 0] the FAISS call fails its assertion.
    For [k >= 1] it takes [min(k, count)] hits, each a stored vector with
    its id and squared distance, whose similarity
    [1 / (1 + squared distance)] lies in (0, 1], listed by decreasing
    similarity, equal similarities by increasing id, and returns the
    metadata and similarity of the hits whose id is below
    [len(metadata)], in that order, skipping the others; when the
    metadata list is at least as long as the index none is skipped. *)
Theorem search_topk (embed : string -> vec) (st : VectorStore) (query : string) (k : Z) :
  (count st = 0 -> search embed st query k = inr []) /\
  (count st <> 0 -> (k <= 0)%Z -> search embed st query k = inl AssertionError) /\
  ((1 <= k)%Z ->
   exists hits : list hit,
     length hits = Nat.min (Z.to_nat k) (count st) /\
     Sorted hit_before hits /\
     Forall (fun h => (0 < similarity (fst h) <= 1)%Q /\
       exists n v, snd h = Z.of_nat n /\ nth_error (index st) n = Some v /\
                   fst h = sqdist (embed query) v) hits /\
     search embed st query k =
       inr (map (result_of (metadata st))
              (filter (fun h => (snd h <? Z.of_nat (length (metadata st)))%Z) hits)) /\
     (count st <= length (metadata st) ->
        search embed st query k = inr (map (result_of (metadata st)) hits))).
Proof.
  split; [apply search_empty|]. split; [apply search_nonpositive|]. intros Hk.
  destruct (Nat.eq_dec (count st) 0) as [Hc|Hc].
  - exists []. rewrite search_empty by exact Hc. rewrite Hc.
    split; [simpl; lia|]. split; [constructor|]. split; [constructor|].
    split; reflexivity.
  - rewrite search_nonempty by assumption. cbv zeta.
    set (n := Z.to_nat (Z.min k (Z.of_nat (count st)))).
    destruct (topk_props (index st) (embed query) n) as (Hs & Hf & Hl).
    exists (firstn n (HitSort.sort (all_hits (index st) (embed query)))).
    split; [rewrite length_firstn, sorted_hits_length; unfold n, count in *; lia|].
    split; [exact Hs|]. split; [exact Hf|]. split; [reflexivity|].
    intros Hmd. rewrite filter_all; [reflexivity|].
    eapply Forall_impl; [|exact Hl]. intros h Hh. simpl in Hh.
    apply Z.ltb_lt. unfold count in Hmd. lia.
Qed.

Lemma search_topk_witness :
  exists hits : list hit,
    search length_embed (mkStore [[0%Q]; [1%Q]] [∅; ∅]) "a" 2 =
      inr (map (result_of [∅; ∅]) hits) /\
    length hits = 2.
Proof.
  destruct (search_topk length_embed (mkStore [[0%Q]; [1%Q]] [∅; ∅]) "a" 2)
    as (_ & _ & Hk).
  destruct (Hk ltac:(lia)) as (hits & H2 & _ & _ & _ & H1).
  exists hits. split; [exact (H1 ltac:(vm_compute; lia))|rewrite H2; reflexivity].
Defined.

(** C1 counterexample: the store built from an index file without its
    metadata file holds one vector, yet [search] with [k = 1] returns no
    result, not [min(1, 1) = 1]; and with [k = 0] it does not return. *)
Lemma search_topk_counterexample :
  count (init disk_index_only) = 1 /\
  search length_embed (init disk_index_only) "disk" 1 = inr [] /\
  search length_embed (init disk_index_only) "disk" 0 = inl AssertionError.
Proof. split; [|split]; vm_compute; reflexivity. Qed.

(** C10 (amended). For every store state and every [k], [search] never
    raises [IndexError]: every returned pair carries the metadata at an id
    in [0, len(metadata)), and at most [min(k, count)] pairs are returned.
    [search] returns normally whenever [k >= 1] or the store is empty; on
    a non-empty store with [k <= 0] the FAISS wrapper's [assert k > 0]
    fails. *)
Theorem search_metadata_in_range (embed : string -> vec) (st : VectorStore)
  (query : string) (k : Z) :
  search embed st query k <> inl IndexError /\
  (forall res, search embed st query k = inr res ->
     exists hits : list hit,
       res = map (result_of (metadata st)) hits /\
       Forall (fun h => 0 <= snd h < Z.of_nat (length (metadata st)))%Z hits /\
       length res <= Nat.min (Z.to_nat k) (count st)) /\
  ((1 <= k)%Z \/ count st = 0 -> exists res, search embed st query k = inr res) /\
  (count st <> 0 -> (k <= 0)%Z -> search embed st query k = inl AssertionError).
Proof.
  destruct (Nat.eq_dec (count st) 0) as [Hc|Hc].
  - rewrite search_empty by exact Hc.
    split; [discriminate|]. split; [|split; [eauto|intros; contradiction]].
    intros res Hres. injection Hres as <-. exists [].
    split; [reflexivity|]. split; [constructor|simpl; lia].
  - destruct (Z_le_gt_dec k 0) as [Hk|Hk].
    + rewrite search_nonpositive by assumption.
      split; [discriminate|]. split; [discriminate|].
      split; [intros [H|H]; [lia|contradiction]|reflexivity].
    + rewrite search_nonempty by (assumption || lia). cbv zeta.
      set (n := Z.to_nat (Z.min k (Z.of_nat (count st)))).
      set (f := fun h : hit => (snd h <? Z.of_nat (length (metadata st)))%Z).
      set (hits := firstn n (HitSort.sort (all_hits (index st) (embed query)))).
      destruct (topk_props (index st) (embed query) n) as (_ & _ & Hl).
      split; [discriminate|]. split; [|split; [eauto|intros; lia]].
      intros res Hres. injection Hres as <-.
      exists (filter f hits). split; [reflexivity|]. split.
      * apply Forall_forall. intros h Hh. apply filter_In in Hh as [Hh Hf].
        rewrite Forall_forall in Hl. specialize (Hl h Hh).
        unfold f in Hf. apply Z.ltb_lt in Hf. lia.
      * rewrite length_map.
        etransitivity; [apply filter_length_le|].
        unfold hits. rewrite length_firstn, sorted_hits_length.
        unfold n, count in *. lia.
Qed.

Lemma search_metadata_in_range_witness :
  exists res, search length_embed (init disk_index_only) "disk" 1 = inr res /\
    length res <= Nat.min (Z.to_nat 1) (count (init disk_index_only)).
Proof.
  destruct (search_metadata_in_range length_embed (init disk_index_only) "disk" 1)
    as (_ & Hb & Ht & _).
  destruct (Ht (or_introl (Z.le_refl 1))) as [res Hres].
  exists res. split; [exact Hres|].
  destruct (Hb res Hres) as (hits & _ & _ & Hlen). exact Hlen.
Defined.

(** C10 counterexample: on a non-empty store, [search] with [k = 0]
    does not return; the FAISS wrapper's assertion fails. *)
Lemma search_metadata_in_range_counterexample :
  search length_embed (mkStore [[0%Q]] [∅]) "disk" 0 = inl AssertionError.
Proof. vm_compute. reflexivity. Qed.

Lemma stamp_records_length (texts : list string) (mds : list meta) (now : nat -> string) (i : nat) :
  length (stamp_records texts mds now i) = Nat.min (length texts) (length mds).
Proof.
  revert mds i. induction texts as [|t ts IH]; intros [|m ms] i; simpl; auto.
Qed.

(** C2 (amended). [add] keeps the index and the metadata list the same
    length and returns the new id; [add_batch] does so when [texts] and
    [metadata_list] have the same length; [save] writes both artifacts from
    the current store and [load] of those artifacts restores it; [load] of
    two artifacts of equal length gives equal lengths. [load] does not
    treat a lone artifact as no data: without the index file it builds an
    empty index and keeps the current metadata, and with the index file
    but no metadata file it keeps the current metadata, so the constructor
    then holds every stored vector and no metadata. *)
Theorem store_lengths_paired (embed : string -> vec) :
  (forall st text md now, paired st ->
     paired (fst (add embed st text md now)) /\
     snd (add embed st text md now) = length (metadata st)) /\
  (forall st texts mds now, length texts = length mds -> paired st ->
     paired (add_batch embed st texts mds now)) /\
  (forall st dk, load st (save st dk) = st) /\
  (forall st ix m, length ix = length m ->
     paired (load st (mkDisk (Some ix) (Some m)))) /\
  (forall st m, load st (mkDisk None m) = mkStore [] (metadata st)) /\
  (forall ix, init (mkDisk (Some ix) None) = mkStore ix []) /\
  (forall m, init (mkDisk None m) = empty_store).
Proof.
  unfold paired. split; [|split; [|split; [|split; [|split; [|split]]]]].
  - intros st text md now H. simpl. rewrite !length_app. simpl. lia.
  - intros st texts mds now Hl H. simpl.
    rewrite !length_app, !length_map, stamp_records_length. lia.
  - intros [ix m] dk. reflexivity.
  - intros st ix m Hl. exact Hl.
  - reflexivity.
  - reflexivity.
  - reflexivity.
Qed.

Lemma store_lengths_paired_witness :
  paired (add_batch length_embed empty_store ["a"; "bc"] [∅; ∅] (fun _ => "t")).
Proof.
  destruct (store_lengths_paired length_embed) as (_ & Hb & _).
  apply Hb; reflexivity.
Defined.

(** C2 counterexample: constructing the store from an index file without
    its metadata file gives one vector and no metadata, not an empty
    store. *)
Lemma store_lengths_paired_counterexample :
  ~ paired (init disk_index_only) /\ init disk_index_only <> empty_store.
Proof. split; vm_compute; [lia|discriminate]. Qed.

End VSFacts.

Module RMFacts.
Import OS RM.
Local Open Scope string_scope.

Ltac tier_cases :=
  repeat match goal with
  | |- context [procs ?os !! ?pid] => destruct (procs os !! pid) eqn:?
  | |- context [if ?b then _ else _] => destruct b eqn:?
  end.

(** C3 (amended). [force_kill] of a pid that is gone reports
    [success = false] with the message "Process <pid> already gone" and
    changes nothing. In dry-run mode it changes nothing and succeeds
    exactly when the process exists. In live mode it succeeds exactly
    when the process exists and may be signalled; then SIGKILL is sent to
    the pid, the result is recorded and no other process changes, but the
    process leaves the table only if it is reaped at once: it may still be
    listed, dying or as a zombie. When signalling is denied it reports
    failure and changes nothing, the process keeps running. *)
Theorem force_kill_success (rm : Manager) (os : Os) (pid : Z) r rm' os'
  (Hcall : force_kill rm os pid = (r, rm', os')) :
  (procs os !! pid = None ->
     r = mkResult false "force_kill" ("Process " ++ str_Z pid ++ " already gone") false /\
     rm' = rm /\ os' = os) /\
  (dry_run rm = true ->
     rm' = rm /\ os' = os /\ (success r = true <-> procs os !! pid <> None)) /\
  (dry_run rm = false ->
     (success r = true <-> exists p, procs os !! pid = Some p /\ p_permitted p = true) /\
     (success r = true ->
        signals os' = (signals os ++ [(pid, SIGKILL)])%list /\ events os' = events os /\
        rm' = record rm r /\
        (forall q, q <> pid -> procs os' !! q = procs os !! q) /\
        (forall p, procs os !! pid = Some p ->
           procs os' !! pid = if p_reaped_at_once p then None else Some p)) /\
     (success r = false -> rm' = rm /\ os' = os)).
Proof.
  unfold force_kill in Hcall.
  destruct (procs os !! pid) as [p|] eqn:Hp.
  - split; [discriminate|].
    destruct (dry_run rm) eqn:Hd.
    + injection Hcall as <- <- <-. split; [|discriminate]. intros _.
      split; [reflexivity|]. split; [reflexivity|]. simpl.
      split; [intros _; discriminate|reflexivity].
    + split; [discriminate|]. intros _.
      destruct (p_permitted p) eqn:Hperm; simpl in Hcall.
      * injection Hcall as <- <- <-. simpl.
        split; [split; [intros _; eauto|reflexivity]|].
        split; [|discriminate]. intros _.
        split; [reflexivity|]. split; [reflexivity|]. split; [reflexivity|].
        split.
        -- intros q Hq. destruct (p_reaped_at_once p); [|reflexivity].
           now rewrite lookup_delete_ne by congruence.
        -- intros p' Hp'. injection Hp' as <-.
           destruct (p_reaped_at_once p); [now rewrite lookup_delete_eq|exact Hp].
      * injection Hcall as <- <- <-. simpl.
        split; [split; [discriminate|intros (p' & Hp' & Hperm'); congruence]|].
        split; [discriminate|]. auto.
  - injection Hcall as <- <- <-.
    split; [auto|]. split; intros _; simpl.
    + split; [reflexivity|]. split; [reflexivity|].
      split; [discriminate|intros H; contradiction].
    + split; [split; [discriminate|intros (p' & Hp' & _); discriminate]|].
      split; [discriminate|]. auto.
Qed.

Lemma force_kill_success_witness :
  let '(r, _, os') := force_kill (mkManager false []) (mkOs {[7%Z := mkProc "hog" 0 true false true]} [] []) 7 in
  success r = true /\ signals os' = [(7%Z, SIGKILL)].
Proof.
  destruct (force_kill (mkManager false []) (mkOs {[7%Z := mkProc "hog" 0 true false true]} [] []) 7)
    as [[r rm'] os'] eqn:E.
  destruct (force_kill_success _ _ _ _ _ _ E) as (_ & _ & Hlive).
  destruct (Hlive eq_refl) as (Hiff & Hok & _).
  assert (Hs : success r = true).
  { apply Hiff. exists (mkProc "hog" 0 true false true). split; reflexivity. }
  split; [exact Hs|]. exact (proj1 (Hok Hs)).
Defined.

(** C3 counterexample: in live mode, killing a pid that is already gone
    reports [success = false] although the process does not exist
    afterwards; and killing a process that is not reaped at once reports
    success while the process is still listed. *)
Lemma force_kill_success_counterexample :
  (let '(r, _, os') := force_kill (mkManager false []) (mkOs ∅ [] []) 42 in
   success r = false /\ procs os' !! 42%Z = None /\
   message r = "Process 42 already gone") /\
  (let '(r, _, os') := force_kill (mkManager false [])
                          (mkOs {[7%Z := mkProc "hog" 0 true false false]} [] []) 7 in
   success r = true /\ procs os' !! 7%Z = Some (mkProc "hog" 0 true false false)).
Proof. vm_compute. auto. Qed.

(** In dry-run mode each tier changes nothing, and a successful result
    carries the "dry_run" flag; [graceful_stop] raises nothing. *)
Lemma dry_run_tiers (rm : Manager) (os : Os) (pid n w : Z) (Hdry : dry_run rm = true) :
  (let '(r, rm', os') := renice_process rm os pid n in
     rm' = rm /\ os' = os /\ (success r = true -> dry_run_flag r = true)) /\
  (let '(r, rm', os') := graceful_stop rm os pid w in
     rm' = rm /\ os' = os /\
     exists r0, r = inr r0 /\ (success r0 = true -> dry_run_flag r0 = true)) /\
  (let '(r, rm', os') := force_kill rm os pid in
     rm' = rm /\ os' = os /\ (success r = true -> dry_run_flag r = true)).
Proof.
  split; [|split].
  - unfold renice_process.
    destruct (procs os !! pid); [|auto].
    destruct (n <=? p_nice p)%Z; [auto|]. rewrite Hdry. auto.
  - unfold graceful_stop.
    destruct (procs os !! pid); [|eauto]. rewrite Hdry. eauto.
  - unfold force_kill. destruct (procs os !! pid); [|auto]. rewrite Hdry. auto.
Qed.

(** C5. With [dry_run] set, every remediation tier and [smart_remediate]
    leave the process table, the signals sent and the spawned commands
    unchanged, record nothing in the history, raise nothing, and every
    successful result carries the "dry_run" flag; so does a [Command]
    action of a runbook run in dry-run mode. *)
Theorem dry_run_no_mutation (rm : Manager) (os : Os) (pid new_nice wait_seconds : Z)
  (action : Engine.Action) (run_shell : string -> Q -> option Z)
  (Hdry : dry_run rm = true) :
  (let '(r, rm', os') := renice_process rm os pid new_nice in
     rm' = rm /\ os' = os /\ (success r = true -> dry_run_flag r = true)) /\
  (let '(r, rm', os') := graceful_stop rm os pid wait_seconds in
     rm' = rm /\ os' = os /\
     exists r0, r = inr r0 /\ (success r0 = true -> dry_run_flag r0 = true)) /\
  (let '(r, rm', os') := force_kill rm os pid in
     rm' = rm /\ os' = os /\ (success r = true -> dry_run_flag r = true)) /\
  (let '(rs, rm', os') := smart_remediate rm os pid in
     rm' = rm /\ os' = os /\
     exists rs0, rs = inr rs0 /\ Forall (fun r => success r = true -> dry_run_flag r = true) rs0) /\
  (let '(ar, os') := Engine.execute_command run_shell action true os in
     os' = os /\ Engine.ar_dry_run ar = true).
Proof.
  destruct (dry_run_tiers rm os pid new_nice wait_seconds Hdry) as (Hr & Hg & Hk).
  split; [exact Hr|]. split; [exact Hg|]. split; [exact Hk|]. split.
  - unfold smart_remediate.
    destruct (dry_run_tiers rm os pid 19 5 Hdry) as (Hr' & Hg' & _).
    destruct (renice_process rm os pid 19) as [[r1 rm1] os1].
    destruct Hr' as (-> & -> & H1). rewrite Hdry.
    destruct (graceful_stop rm os pid 5) as [[r2 rm2] os2].
    destruct Hg' as (-> & -> & r0 & -> & H2).
    destruct (force_kill rm os pid) as [[r3 rm3] os3].
    destruct Hk as (-> & -> & H3).
    split; [reflexivity|]. split; [reflexivity|].
    eexists; split; [reflexivity|].
    repeat constructor; assumption.
  - split; reflexivity.
Qed.

Lemma dry_run_no_mutation_witness :
  let os := mkOs {[7%Z := mkProc "hog" 0 true false true]} [] [] in
  let '(_, rm', os') := smart_remediate (mkManager true []) os 7 in
  rm' = mkManager true [] /\ os' = os.
Proof.
  destruct (dry_run_no_mutation (mkManager true []) (mkOs {[7%Z := mkProc "hog" 0 true false true]} [] [])
              7 19 5 (Engine.mkAction None None None None None None) (fun _ _ => None)
              eq_refl) as (_ & _ & _ & Hs & _).
  cbv zeta.
  destruct (smart_remediate (mkManager true []) (mkOs {[7%Z := mkProc "hog" 0 true false true]} [] []) 7)
    as [[rs rm'] os'].
  destruct Hs as (H1 & H2 & _). split; assumption.
Defined.

Lemma tier_actions (rm : Manager) (os : Os) (pid n w : Z) :
  action (fst (fst (renice_process rm os pid n))) = "renice" /\
  (forall r0, fst (fst (graceful_stop rm os pid w)) = inr r0 -> action r0 = "graceful_stop") /\
  action (fst (fst (force_kill rm os pid))) = "force_kill".
Proof.
  unfold renice_process, graceful_stop, force_kill.
  destruct (procs os !! pid); [|split; [reflexivity|split; [intros r0 E; now injection E as <-|reflexivity]]].
  split; [destruct (n <=? p_nice p)%Z, (dry_run rm), (p_permitted p); reflexivity|].
  split; [|destruct (dry_run rm), (p_permitted p); reflexivity].
  intros r0 E.
  destruct (dry_run rm), (p_permitted p), (w <? 0)%Z, (p_exits_on_term p);
    simpl in E; try discriminate; injection E as <-; reflexivity.
Qed.

(** C6. [smart_remediate] calls [renice_process] first; with [dry_run]
    set it returns exactly the three results of renice, graceful_stop and
    force_kill, in this order; otherwise it returns only the renice result
    and its effects are those of renice alone. *)
Theorem smart_remediate_tiers (rm : Manager) (os : Os) (pid : Z) rs rm' os'
  (Hcall : smart_remediate rm os pid = (rs, rm', os')) :
  (dry_run rm = true ->
     exists r2, fst (fst (graceful_stop rm os pid 5)) = inr r2 /\
     rs = inr [fst (fst (renice_process rm os pid 19)); r2; fst (fst (force_kill rm os pid))] /\
     map action [fst (fst (renice_process rm os pid 19)); r2; fst (fst (force_kill rm os pid))] =
       ["renice"; "graceful_stop"; "force_kill"]) /\
  (dry_run rm = false ->
     rs = inr [fst (fst (renice_process rm os pid 19))] /\
     (rm', os') = (snd (fst (renice_process rm os pid 19)), snd (renice_process rm os pid 19)) /\
     map action [fst (fst (renice_process rm os pid 19))] = ["renice"]).
Proof.
  destruct (tier_actions rm os pid 19 5) as (A1 & A2 & A3).
  unfold smart_remediate in Hcall.
  destruct (renice_process rm os pid 19) as [[r1 rm1] os1] eqn:E1.
  assert (Hd1 : dry_run rm1 = dry_run rm).
  { revert E1. unfold renice_process.
    destruct (procs os !! pid); [|intros E; now injection E as _ <- _].
    destruct (19 <=? p_nice p)%Z, (dry_run rm) eqn:Hd, (p_permitted p);
      intros E; injection E as _ <- _; simpl; auto. }
  split; intros Hd; rewrite Hd1, Hd in Hcall.
  - destruct (dry_run_tiers rm os pid 19 5 Hd) as (Hr & Hg & _).
    rewrite E1 in Hr. destruct Hr as (-> & -> & _).
    destruct (graceful_stop rm os pid 5) as [[g2 rm2] os2] eqn:E2.
    destruct Hg as (-> & -> & r2 & -> & _).
    destruct (force_kill rm os pid) as [[r3 rm3] os3] eqn:E3.
    injection Hcall as <- _ _. simpl in *. exists r2.
    split; [reflexivity|]. split; [reflexivity|].
    simpl. now rewrite A1, (A2 r2 eq_refl), A3.
  - injection Hcall as <- <- <-. simpl in *. split; [reflexivity|]. split; [reflexivity|].
    simpl. now rewrite A1.
Qed.

Lemma smart_remediate_tiers_witness :
  let os := mkOs {[7%Z := mkProc "hog" 0 true false true]} [] [] in
  exists rs, fst (fst (smart_remediate (mkManager true []) os 7)) = inr rs /\
    map action rs = ["renice"; "graceful_stop"; "force_kill"].
Proof.
  cbv zeta.
  destruct (smart_remediate (mkManager true []) (mkOs {[7%Z := mkProc "hog" 0 true false true]} [] []) 7)
    as [[rs rm'] os'] eqn:E.
  destruct (smart_remediate_tiers _ _ _ _ _ _ E) as [Hd _].
  destruct (Hd eq_refl) as (r2 & _ & -> & Hm).
  eexists; split; [reflexivity|exact Hm].
Defined.

Lemma renice_already (rm : Manager) (os : Os) (pid target : Z) (p : Proc) :
  procs os !! pid = Some p -> (target <= p_nice p)%Z ->
  renice_process rm os pid target =
    (mkResult false "renice" ("Process already at nice " ++ str_Z (p_nice p)) false, rm, os).
Proof.
  intros Hp Hle. unfold renice_process. rewrite Hp.
  replace (target <=? p_nice p)%Z with true by (symmetry; now apply Z.leb_le).
  reflexivity.
Qed.

(** C8 (amended). When the process's niceness is already at least the
    target, [renice_process] reports failure with the message "Process
    already at nice <n>" and changes nothing, in either mode. In live mode
    with a target of at most 19 (the kernel clamps higher values to 19),
    a second call with the same target reports failure and changes
    nothing. In dry-run mode the first call changes nothing, so the second
    call reports what the first reported. *)
Theorem renice_idempotent (rm : Manager) (os : Os) (pid target : Z) :
  (forall p, procs os !! pid = Some p -> (target <= p_nice p)%Z ->
     renice_process rm os pid target =
       (mkResult false "renice" ("Process already at nice " ++ str_Z (p_nice p)) false, rm, os)) /\
  (dry_run rm = false -> (target <= 19)%Z ->
     forall r1 rm1 os1 r2 rm2 os2,
       renice_process rm os pid target = (r1, rm1, os1) ->
       renice_process rm1 os1 pid target = (r2, rm2, os2) ->
       success r2 = false /\ rm2 = rm1 /\ os2 = os1) /\
  (dry_run rm = true ->
     forall r1 rm1 os1,
       renice_process rm os pid target = (r1, rm1, os1) ->
       renice_process rm1 os1 pid target = (r1, rm1, os1)).
Proof.
  split; [intros p; apply renice_already|]. split.
  - intros Hd H19 r1 rm1 os1 r2 rm2 os2 E1 E2.
    unfold renice_process in E1.
    destruct (procs os !! pid) as [p|] eqn:Hp.
    + destruct (target <=? p_nice p)%Z eqn:Hle.
      * injection E1 as _ <- <-. apply Z.leb_le in Hle.
        rewrite (renice_already _ _ _ _ _ Hp Hle) in E2.
        injection E2 as <- <- <-. auto.
      * rewrite Hd in E1. destruct (p_permitted p) eqn:Hperm; simpl in E1.
        -- injection E1 as _ <- <-.
           unfold renice_process in E2. simpl in E2. rewrite lookup_insert_eq in E2.
           simpl in E2. unfold clamp_nice in E2.
           replace (target <=? Z.max (-20) (Z.min 19 target))%Z with true in E2
             by (symmetry; apply Z.leb_le; lia).
           injection E2 as <- <- <-. auto.
        -- injection E1 as _ <- <-.
           unfold renice_process in E2. rewrite Hp, Hle, Hd, Hperm in E2.
           injection E2 as <- <- <-. auto.
    + injection E1 as _ <- <-. unfold renice_process in E2. rewrite Hp in E2.
      injection E2 as <- <- <-. auto.
  - intros Hd r1 rm1 os1 E1.
    destruct (dry_run_tiers rm os pid target 5 Hd) as (Hr & _).
    rewrite E1 in Hr. destruct Hr as (-> & -> & _). exact E1.
Qed.

Lemma renice_idempotent_witness :
  let os := mkOs {[7%Z := mkProc "hog" 0 true false true]} [] [] in
  let '(_, rm1, os1) := renice_process (mkManager false []) os 7 19 in
  success (fst (fst (renice_process rm1 os1 7 19))) = false.
Proof.
  cbv zeta.
  destruct (renice_process (mkManager false []) (mkOs {[7%Z := mkProc "hog" 0 true false true]} [] []) 7 19)
    as [[r1 rm1] os1] eqn:E1.
  destruct (renice_process rm1 os1 7 19) as [[r2 rm2] os2] eqn:E2.
  destruct (renice_idempotent (mkManager false []) (mkOs {[7%Z := mkProc "hog" 0 true false true]} [] [])
              7 19) as (_ & Hlive & _).
  exact (proj1 (Hlive eq_refl ltac:(lia) _ _ _ _ _ _ E1 E2)).
Defined.

(** C8 counterexample: in dry-run mode, renicing a process at nice 0 to
    19 twice reports success both times. *)
Lemma renice_idempotent_counterexample :
  let os := mkOs {[7%Z := mkProc "hog" 0 true false true]} [] [] in
  let '(r1, rm1, os1) := renice_process (mkManager true []) os 7 19 in
  let '(r2, _, os2) := renice_process rm1 os1 7 19 in
  success r1 = true /\ success r2 = true /\ os2 = os.
Proof. vm_compute. auto. Qed.

End RMFacts.

Module EngineFacts.
Import OS Engine.
Local Open Scope string_scope.

Lemma Qgt_bool_iff (x y : Q) : Qgt_bool x y = true <-> (y < x)%Q.
Proof.
  unfold Qgt_bool. rewrite Bool.negb_true_iff. split.
  - intros H. apply Qnot_le_lt. intros Hle. apply Qle_bool_iff in Hle. congruence.
  - intros H. apply Bool.not_true_iff_false. intros Hle. apply Qle_bool_iff in Hle.
    apply (Qlt_not_le _ _ H Hle).
Qed.

Lemma Qge_bool_iff (x y : Q) : Qge_bool x y = true <-> (y <= x)%Q.
Proof. apply Qle_bool_iff. Qed.

Lemma disk_loop_spec (ds : list DiskEntry) (fs : string) (thr : Q) (op : string) :
  disk_loop ds fs thr op = true <->
  Exists (fun d => filesystem d = fs /\
            ((op = ">" /\ (thr < usage_percent d)%Q) \/ (op = ">=" /\ (thr <= usage_percent d)%Q))) ds.
Proof.
  induction ds as [|d ds IH]; simpl.
  - split; [discriminate|intros H; inversion H].
  - rewrite Exists_cons, <- IH.
    destruct (String.eqb_spec (filesystem d) fs) as [Hfs|Hfs].
    + destruct (String.eqb_spec op ">") as [Ho|Ho];
        destruct (Qgt_bool (usage_percent d) thr) eqn:Hg; simpl;
        destruct (String.eqb_spec op ">=") as [Ho'|Ho'];
        destruct (Qge_bool (usage_percent d) thr) eqn:Hge; simpl;
        rewrite ?Qgt_bool_iff, ?Qge_bool_iff in *;
        try (subst; discriminate);
        (split; [intros H; try (left; tauto); right; exact H|]);
        intros [H|H]; auto;
        destruct H as [_ [[H1 H2]|[H1 H2]]]; try congruence;
        try (apply Qgt_bool_iff in H2; congruence);
        try (apply Qge_bool_iff in H2; congruence).
    + split; [intros H; now right|]. intros [[H _]|H]; [contradiction|exact H].
Qed.

(** C4. A disabled runbook never fires. For an enabled
    runbook, with the trigger's effective operator, threshold and
    filesystem (defaults ">" , 90, "/" for disk_usage and ">=", 85 for
    memory_usage): ">" fires exactly when a usage reading is strictly
    above the threshold and ">=" exactly when it is at least the
    threshold, for the single memory reading and for some disk entry of
    the filesystem; with no reading in the context it does not fire. So at
    usage equal to the threshold ">" does not fire and ">=" does. *)
Theorem check_trigger_operators (rb : Runbook) (ctx : Context) :
  (get (rb_enabled rb) true = false -> check_trigger rb ctx = false) /\
  (get (rb_enabled rb) true = true ->
   let trigger := get (rb_trigger rb) empty_trigger in
   (t_type trigger = Some "memory_usage" ->
      let thr := get (t_threshold trigger) 85%Q in
      let op := get (t_operator trigger) ">=" in
      (ctx_memory_usage ctx = None -> check_trigger rb ctx = false) /\
      (forall u, ctx_memory_usage ctx = Some u ->
         (op = ">" -> (check_trigger rb ctx = true <-> (thr < u)%Q)) /\
         (op = ">=" -> (check_trigger rb ctx = true <-> (thr <= u)%Q)) /\
         ((u == thr)%Q -> (op = ">" -> check_trigger rb ctx = false) /\
                         (op = ">=" -> check_trigger rb ctx = true)))) /\
   (t_type trigger = Some "disk_usage" ->
      let fs := get (t_filesystem trigger) "/" in
      let thr := get (t_threshold trigger) 90%Q in
      let op := get (t_operator trigger) ">" in
      (ctx_disk_usage ctx = None -> check_trigger rb ctx = false) /\
      (forall ds, ctx_disk_usage ctx = Some ds ->
         (op = ">" -> (check_trigger rb ctx = true <->
            Exists (fun d => filesystem d = fs /\ (thr < usage_percent d)%Q) ds)) /\
         (op = ">=" -> (check_trigger rb ctx = true <->
            Exists (fun d => filesystem d = fs /\ (thr <= usage_percent d)%Q) ds)) /\
         (Exists (fun d => filesystem d = fs) ds ->
          Forall (fun d => filesystem d = fs -> (usage_percent d == thr)%Q) ds ->
          (op = ">" -> check_trigger rb ctx = false) /\
          (op = ">=" -> check_trigger rb ctx = true))))).
Proof.
  unfold check_trigger. split; [intros ->; reflexivity|].
  intros Hen. rewrite Hen. simpl. split.
  - intros Ht. rewrite Ht. unfold check_memory_trigger.
    split; [intros ->; reflexivity|].
    intros u Hu. rewrite Hu.
    set (thr := get (t_threshold (get (rb_trigger rb) empty_trigger)) 85%Q).
    set (op := get (t_operator (get (rb_trigger rb) empty_trigger)) ">=").
    assert (G : op = ">" -> ((if (op =? ">=") && Qge_bool u thr then true
               else if (op =? ">") && Qgt_bool u thr then true else false) = true <-> (thr < u)%Q)).
    { intros ->. simpl. destruct (Qgt_bool u thr) eqn:E.
      - split; [intros _; now apply Qgt_bool_iff|reflexivity].
      - split; [discriminate|intros H; apply Qgt_bool_iff in H; congruence]. }
    assert (GE : op = ">=" -> ((if (op =? ">=") && Qge_bool u thr then true
               else if (op =? ">") && Qgt_bool u thr then true else false) = true <-> (thr <= u)%Q)).
    { intros ->. simpl. destruct (Qge_bool u thr) eqn:E.
      - split; [intros _; now apply Qge_bool_iff|reflexivity].
      - split; [discriminate|intros H; apply Qge_bool_iff in H; congruence]. }
    split; [exact G|]. split; [exact GE|].
    intros Heq. split.
    + intros Ho. apply Bool.not_true_iff_false. rewrite (G Ho). intros H.
      rewrite Heq in H. apply (Qlt_irrefl _ H).
    + intros Ho. apply (GE Ho). rewrite Heq. apply Qle_refl.
  - intros Ht. rewrite Ht. unfold check_disk_trigger.
    split; [intros ->; reflexivity|].
    intros ds Hds. rewrite Hds.
    set (fs := get (t_filesystem (get (rb_trigger rb) empty_trigger)) "/").
    set (thr := get (t_threshold (get (rb_trigger rb) empty_trigger)) 90%Q).
    set (op := get (t_operator (get (rb_trigger rb) empty_trigger)) ">").
    assert (G : op = ">" -> (disk_loop ds fs thr op = true <->
              Exists (fun d => filesystem d = fs /\ (thr < usage_percent d)%Q) ds)).
    { intros Ho. rewrite disk_loop_spec. split; intros H; eapply Exists_impl; try exact H;
        simpl; intros d Hd; rewrite Ho in *; [|tauto].
      destruct Hd as [Hf [[_ H1]|[H1 _]]]; [tauto|discriminate]. }
    assert (GE : op = ">=" -> (disk_loop ds fs thr op = true <->
              Exists (fun d => filesystem d = fs /\ (thr <= usage_percent d)%Q) ds)).
    { intros Ho. rewrite disk_loop_spec. split; intros H; eapply Exists_impl; try exact H;
        simpl; intros d Hd; rewrite Ho in *; [|tauto].
      destruct Hd as [Hf [[H1 _]|[_ H1]]]; [discriminate|tauto]. }
    split; [exact G|]. split; [exact GE|].
    intros Hex Hall. split.
    + intros Ho. apply Bool.not_true_iff_false. rewrite (G Ho). intros H.
      apply Exists_exists in H as (d & Hin & Hf & Hlt).
      rewrite Forall_forall in Hall. specialize (Hall d Hin Hf).
      rewrite Hall in Hlt. apply (Qlt_irrefl _ Hlt).
    + intros Ho. apply (GE Ho).
      apply Exists_exists in Hex as (d & Hin & Hf).
      apply Exists_exists. exists d. split; [exact Hin|]. split; [exact Hf|].
      rewrite Forall_forall in Hall. rewrite (Hall d Hin Hf). apply Qle_refl.
Qed.

Lemma check_trigger_operators_witness :
  check_trigger (mkRunbook None None
                   (Some (mkTrigger (Some "disk_usage") (Some "/home") (Some 90%Q) (Some ">=")))
                   None)
                (mkContext (Some [mkDisk "/home" 90%Q; mkDisk "/" 99%Q]) None) = true.
Proof.
  destruct (check_trigger_operators
              (mkRunbook None None
                 (Some (mkTrigger (Some "disk_usage") (Some "/home") (Some 90%Q) (Some ">=")))
                 None)
              (mkContext (Some [mkDisk "/home" 90%Q; mkDisk "/" 99%Q]) None)) as [_ H].
  specialize (H eq_refl). cbv zeta in H. destruct H as [_ Hd].
  specialize (Hd eq_refl). cbv zeta in Hd. destruct Hd as [_ Hds].
  destruct (Hds [mkDisk "/home" 90%Q; mkDisk "/" 99%Q] eq_refl) as (_ & _ & Hb).
  simpl in Hb. apply Hb; [left; reflexivity| |reflexivity].
  apply Forall_cons; [simpl; intros _; reflexivity|].
  apply Forall_cons; [simpl; intros Hf; discriminate|].
  apply Forall_nil.
Defined.

(** The scenario of the spec: /home at 92% fires a ">" 90 trigger, at
    88% it does not. *)
Example disk_trigger_scenario :
  let rb := mkRunbook None None
              (Some (mkTrigger (Some "disk_usage") (Some "/home") (Some 90%Q) (Some ">"))) None in
  check_trigger rb (mkContext (Some [mkDisk "/home" 92%Q]) None) = true /\
  check_trigger rb (mkContext (Some [mkDisk "/home" 88%Q]) None) = false.
Proof. split; reflexivity. Qed.

Section Runs.
Variable run_shell : string -> Q -> option Z.

Lemma is_type_eq (t : option string) (name : string) : is_type t name = true -> t = Some name.
Proof. destruct t as [x|]; simpl; [intros H; apply String.eqb_eq in H; now subst|discriminate]. Qed.

(** An action that may run returns a result that does not depend on the
    state and only appends its own events. *)
Lemma action_step (dry : bool) (a : Action) :
  (dry = false -> a_type a = Some "wait" -> (0 <= get (a_seconds a) 5)%Q) ->
  exists r evs, forall os,
    execute_action run_shell dry os a = inr (r, mkOs (procs os) (signals os) (events os ++ evs)).
Proof.
  intros Hw. unfold execute_action.
  destruct (is_type (a_type a) "alert") eqn:Ea.
  { exists (execute_alert a dry), []. intros [pr sg ev]. now rewrite app_nil_r. }
  destruct (is_type (a_type a) "command") eqn:Ec.
  { unfold execute_command. destruct dry.
    - exists (mkActionResult true (Some "command") true), []. intros [pr sg ev]. now rewrite app_nil_r.
    - destruct (a_run a) as [cmd|].
      + exists (match run_shell cmd (get (a_timeout a) 30%Q) with
                | Some 0%Z => mkActionResult true (Some "command") false
                | _ => mkActionResult false (Some "command") false end), [Spawn cmd].
        intros os. destruct (run_shell cmd (get (a_timeout a) 30%Q)) as [[| |]|]; reflexivity.
      + exists (mkActionResult false (Some "command") false), []. intros [pr sg ev].
        now rewrite app_nil_r. }
  destruct (is_type (a_type a) "wait") eqn:Ew.
  { unfold execute_wait. destruct dry.
    - exists (mkActionResult true (Some "wait") false), []. intros [pr sg ev]. now rewrite app_nil_r.
    - specialize (Hw eq_refl (is_type_eq _ _ Ew)).
      exists (mkActionResult true (Some "wait") false), [Sleep (get (a_seconds a) 5%Q)].
      intros os. unfold sleep. apply Qle_bool_iff in Hw. now rewrite Hw. }
  exists (mkActionResult false None false), []. intros [pr sg ev]. now rewrite app_nil_r.
Qed.

Lemma run_actions_all (dry : bool) (acts : list Action) :
  Forall (fun a => dry = false -> a_type a = Some "wait" -> (0 <= get (a_seconds a) 5)%Q) acts ->
  forall os, exists results os',
    run_actions run_shell dry acts os = inr (results, os') /\
    Forall2 (fun a r => forall os1, exists os2, execute_action run_shell dry os1 a = inr (r, os2))
            acts results /\
    events os' = (events os ++ concat (map (fun a =>
        match execute_action run_shell dry (mkOs ∅ [] []) a with
        | inr (_, o) => events o | inl _ => [] end) acts))%list /\
    procs os' = procs os /\ signals os' = signals os.
Proof.
  induction 1 as [|a acts Ha _ IH]; intros os.
  - exists [], os. simpl. rewrite app_nil_r. auto.
  - destruct (action_step dry a Ha) as (r & evs & Hstep).
    simpl. rewrite Hstep.
    destruct (IH (mkOs (procs os) (signals os) (events os ++ evs)))
      as (rs & os' & Hrun & Hf & Hev & Hp & Hs).
    rewrite Hrun. exists (r :: rs), os'. split; [reflexivity|]. split.
    + constructor; [|exact Hf]. intros os1. eexists. apply Hstep.
    + rewrite Hev, Hp, Hs. simpl. split; [|auto].
      rewrite (Hstep (mkOs ∅ [] [])). simpl. now rewrite app_assoc.
Qed.

(** C9. The claim holds for every runbook except those with a Wait
    action of negative duration run in live mode, where the code departs
    from it (see the counterexample below). Otherwise [execute_runbook]
    returns one result per declared action, in declared order: the i-th result is what the i-th action returns
    whatever the state before it, so a failed action never stops the
    later ones; the effects (spawned commands, sleeps) are those of the
    actions one after another in declared order. *)
Theorem execute_runbook_all_actions (rb : Runbook) (ctx : Context) (dry : bool) (os : Os)
  (Hwait : dry = true \/
           Forall (fun a => a_type a = Some "wait" -> (0 <= get (a_seconds a) 5)%Q)
                  (get (rb_actions rb) [])) :
  let acts := get (rb_actions rb) [] in
  let ev a := match execute_action run_shell dry (mkOs ∅ [] []) a with
              | inr (_, o) => events o | inl _ => [] end in
  exists results os',
    execute_runbook run_shell rb ctx dry os =
      inr (mkExecutionResult (get (rb_name rb) "unknown") results, os') /\
    Forall2 (fun a r => forall os1, exists os2, execute_action run_shell dry os1 a = inr (r, os2))
            acts results /\
    events os' = (events os ++ concat (map ev acts))%list /\
    procs os' = procs os /\ signals os' = signals os.
Proof.
  cbv zeta. unfold execute_runbook.
  assert (Hacts : Forall (fun a => dry = false -> a_type a = Some "wait" ->
                            (0 <= get (a_seconds a) 5)%Q) (get (rb_actions rb) [])).
  { destruct Hwait as [->|H]; [apply Forall_forall; intros; discriminate|].
    eapply Forall_impl; [|exact H]. auto. }
  destruct (run_actions_all dry _ Hacts os) as (rs & os' & Hrun & Hrest).
  rewrite Hrun. exists rs, os'. auto.
Qed.

End Runs.

Definition shell_ok (_ : string) (_ : Q) : option Z := Some 0%Z.

Lemma execute_runbook_all_actions_witness :
  exists results os',
    execute_runbook shell_ok
      (mkRunbook (Some "cleanup") None None
         (Some [mkAction (Some "command") None None None None None;
                mkAction (Some "alert") (Some "done") None None None None]))
      (mkContext None None) false (mkOs ∅ [] []) =
      inr (mkExecutionResult "cleanup" results, os') /\ length results = 2.
Proof.
  destruct (execute_runbook_all_actions shell_ok
      (mkRunbook (Some "cleanup") None None
         (Some [mkAction (Some "command") None None None None None;
                mkAction (Some "alert") (Some "done") None None None None]))
      (mkContext None None) false (mkOs ∅ [] [])
      ltac:(right; repeat apply Forall_cons; try apply Forall_nil; simpl; intros H; discriminate))
    as (rs & os' & Hrun & Hf & _).
  exists rs, os'. split; [exact Hrun|]. now rewrite <- (Forall2_length Hf).
Defined.

(** C9 counterexample: in live mode a Wait action of -1 seconds makes
    [time.sleep] raise [ValueError], which [_execute_wait] does not catch
    (unlike [_execute_command]); it escapes [execute_runbook], so the
    following Alert action never runs and no result list is produced. *)
Lemma execute_runbook_all_actions_counterexample :
  execute_runbook shell_ok
    (mkRunbook (Some "r") None None
       (Some [mkAction (Some "wait") None None None None (Some (-1)%Q);
              mkAction (Some "alert") (Some "after") None None None None]))
    (mkContext None None) false (mkOs ∅ [] []) = inl ValueError.
Proof. reflexivity. Qed.

End EngineFacts.

Module DaemonFacts.
Import Daemon.

(** C7. The loop [run] starts from the baselines [last_* = 0]; on its
    first iteration at a clock reading [t0] not below either interval, as
    [time.time()] (seconds since the Unix epoch) is for any configured
    interval, it runs both checks and sets both timestamps to [t0]. From
    then on every iteration, at any timers and clock reading [now], runs
    the health check exactly when [now - last_health_check >=
    health_check_interval], then setting [last_health_check = now], and
    independently the resource check exactly when
    [now - last_resource_check >= resource_check_interval], then setting
    [last_resource_check = now]; the next iteration continues from the
    updated timers. From the baselines the first iteration runs each
    check exactly when [now] is at least its interval. *)
Theorem tick_schedule (hi ri t0 : Q) (rest : list Q)
  (Hh : (hi <= t0)%Q) (Hr : (ri <= t0)%Q) :
  run hi ri start (t0 :: rest) = mkChecks true true :: run hi ri (mkTimers t0 t0) rest /\
  (forall (tm : Timers) (now : Q) (rest' : list Q),
     let '(c, tm') := tick hi ri tm now in
     run hi ri tm (now :: rest') = c :: run hi ri tm' rest' /\
     (ran_health_check c = true <-> (hi <= now - last_health_check tm)%Q) /\
     (ran_resource_check c = true <-> (ri <= now - last_resource_check tm)%Q) /\
     last_health_check tm' = (if ran_health_check c then now else last_health_check tm) /\
     last_resource_check tm' = (if ran_resource_check c then now else last_resource_check tm) /\
     (tm = start ->
        (ran_health_check c = true <-> (hi <= now)%Q) /\
        (ran_resource_check c = true <-> (ri <= now)%Q))).
Proof.
  assert (E : forall x, (x - 0 == x)%Q) by (intros; ring).
  split.
  - simpl. unfold tick. simpl.
    replace (Qle_bool hi (t0 - 0)) with true
      by (symmetry; apply Qle_bool_iff; rewrite E; exact Hh).
    replace (Qle_bool ri (t0 - 0)) with true
      by (symmetry; apply Qle_bool_iff; rewrite E; exact Hr).
    reflexivity.
  - intros tm now rest'. simpl. unfold tick. simpl. rewrite !Qle_bool_iff.
    split; [reflexivity|]. split; [tauto|]. split; [tauto|].
    split; [reflexivity|]. split; [reflexivity|].
    intros ->. simpl. rewrite E. tauto.
Qed.

Lemma tick_schedule_witness :
  run 21600 300 start [1760000000; 1760000300]%Q =
    [mkChecks true true; mkChecks false true].
Proof.
  destruct (tick_schedule 21600 300 1760000000 [1760000300]%Q
              ltac:(unfold Qle; simpl; lia) ltac:(unfold Qle; simpl; lia)) as [H1 _].
  rewrite H1. reflexivity.
Defined.

(** Minute ticks from a wall-clock start: the resource check runs at the
    first tick and again five minutes later, the health check only at
    the first tick. *)
Example run_minutes :
  map (fun c => (ran_health_check c, ran_resource_check c))
      (run 21600 300 start
         [1760000000; 1760000060; 1760000120; 1760000180; 1760000240; 1760000300]%Q) =
  [(true, true); (false, false); (false, false); (false, false); (false, false); (false, true)].
Proof. vm_compute. reflexivity. Qed.

End DaemonFacts.

(** * Further properties of the code *)

Module VSMore.
Import VS VSFacts.

Lemma hit_leb_iff (a b : hit) :
  HitOrder.leb a b = true <->
  ((fst a < fst b)%Q \/ ((fst a == fst b)%Q /\ (snd a <= snd b)%Z)).
Proof.
  unfold HitOrder.leb. destruct (Qeq_bool (fst a) (fst b)) eqn:E.
  - apply Qeq_bool_iff in E. rewrite Z.leb_le.
    split; [intros H; right; auto|intros [H|[_ H]]; [lra|exact H]].
  - apply Qeq_bool_neq in E. rewrite Qle_bool_iff.
    split.
    + intros H. left. apply Qle_lteq in H as [H|H]; [exact H|contradiction].
    + intros [H|[H _]]; [lra|contradiction].
Qed.

Lemma hit_leb_trans : Transitive (fun a b : hit => HitOrder.leb a b = true).
Proof.
  intros a b c Hab Hbc. apply hit_leb_iff in Hab, Hbc. apply hit_leb_iff.
  destruct Hab as [H1|[H1 H2]], Hbc as [H3|[H3 H4]].
  - left. lra.
  - left. lra.
  - left. lra.
  - right. split; [lra|lia].
Qed.

Lemma hit_leb_le (a b : hit) : HitOrder.leb a b = true -> (fst a <= fst b)%Q.
Proof. intros H. apply hit_leb_iff in H as [H|[H _]]; lra. Qed.

Lemma sorted_hits_strong (idx : list vec) (q : vec) :
  StronglySorted (fun a b => HitOrder.leb a b = true) (HitSort.sort (all_hits idx q)).
Proof.
  apply Sorted_StronglySorted; [exact hit_leb_trans|apply HitSort.Sorted_sort].
Qed.

Lemma in_skipn_in' {A} (n : nat) (l : list A) (x : A) : In x (skipn n l) -> In x l.
Proof. intros H. rewrite <- (firstn_skipn n l). apply in_or_app. now right. Qed.

Lemma StronglySorted_firstn_skipn {A} (R : A -> A -> Prop) (n : nat) (l : list A) :
  StronglySorted R l -> forall a b, In a (firstn n l) -> In b (skipn n l) -> R a b.
Proof.
  revert n; induction l as [|x l IH]; intros n H a b Ha Hb.
  - destruct n; contradiction.
  - destruct n as [|n]; [contradiction|].
    apply StronglySorted_inv in H as [Hs Hx]. simpl in Ha, Hb.
    destruct Ha as [<-|Ha].
    + eapply Forall_forall; [exact Hx|]. eapply in_skipn_in'; exact Hb.
    + exact (IH n Hs a b Ha Hb).
Qed.

Lemma combine_seq_in {A} (l : list A) (s n : nat) (v : A) :
  nth_error l n = Some v -> In (s + n, v) (combine (seq s (length l)) l).
Proof.
  revert s n; induction l as [|a l IH]; intros s n H; [destruct n; discriminate|].
  destruct n as [|n]; simpl in H |- *.
  - injection H as <-. left. f_equal. lia.
  - right. replace (s + S n) with (S s + n) by lia. now apply IH.
Qed.

Lemma all_hits_in (idx : list vec) (q : vec) (n : nat) (v : vec) :
  nth_error idx n = Some v -> In (sqdist q v, Z.of_nat n) (all_hits idx q).
Proof.
  intros H. unfold all_hits. apply in_map_iff. exists (n, v). split; [reflexivity|].
  exact (combine_seq_in idx 0 n v H).
Qed.

Lemma sqdist_self (v : vec) : (sqdist v v == 0)%Q.
Proof. induction v as [|a v IH]; simpl; [reflexivity|]. rewrite IH. ring. Qed.

Lemma similarity_anti (d1 d2 : Q) :
  (0 <= d1)%Q -> (d1 <= d2)%Q -> (similarity d2 <= similarity d1)%Q.
Proof.
  intros H1 H12. apply Qle_lteq in H12 as [H|H].
  - apply Qlt_le_weak. now apply similarity_strict.
  - rewrite (similarity_eq d1 d2 H). apply Qle_refl.
Qed.

(** X: [add] appends the text's embedding to the index and a record to
    the metadata, at the returned id; the record maps "text" to the text
    and "added_at" to the timestamp and keeps every other key of the
    caller's dict. *)
Theorem add_stores_record (embed : string -> vec) (st : VectorStore) (text : string)
  (md : meta) (now : string) :
  let '(st', id) := add embed st text md now in
  id = length (metadata st) /\
  index st' = (index st ++ [embed text])%list /\
  exists m, metadata st' = (metadata st ++ [m])%list /\
    nth_error (metadata st') id = Some m /\
    m !! "text"%string = Some text /\ m !! "added_at"%string = Some now /\
    (forall key, key <> "text"%string -> key <> "added_at"%string -> m !! key = md !! key).
Proof.
  unfold add. simpl. rewrite length_app. simpl.
  split; [lia|]. split; [reflexivity|].
  eexists. split; [reflexivity|]. split.
  { rewrite nth_error_app2 by lia. now replace (length (metadata st) + 1 - 1 - length (metadata st)) with 0 by lia. }
  split; [rewrite lookup_insert_ne by discriminate; apply lookup_insert_eq|].
  split; [apply lookup_insert_eq|].
  intros key H1 H2. rewrite !lookup_insert_ne by congruence. reflexivity.
Qed.

(** X: right after [add], searching for the same text with [k = 1] on a
    store whose index and metadata have equal length returns exactly one
    result, a stored record, with similarity 1. *)
Theorem add_then_search_self (embed : string -> vec) (st : VectorStore) (text : string)
  (md : meta) (now : string) (Hp : paired st) :
  let st' := fst (add embed st text md now) in
  exists m s, search embed st' text 1 = inr [(m, s)] /\ (s == 1)%Q /\ In m (metadata st').
Proof.
  intros st'.
  assert (Hi : index st' = (index st ++ [embed text])%list) by reflexivity.
  assert (Hm : length (metadata st') = length (index st'))
    by (unfold st', paired in *; simpl; rewrite !length_app; simpl; lia).
  assert (Hc : count st' = S (length (index st)))
    by (unfold count; rewrite Hi, length_app; simpl; lia).
  rewrite (search_nonempty embed st' text 1) by lia. cbv zeta.
  rewrite Hc. replace (Z.to_nat (Z.min 1 (Z.of_nat (S (length (index st)))))) with 1 by lia.
  pose proof (sorted_hits_length (index st') (embed text)) as Hlen.
  pose proof (sorted_hits_strong (index st') (embed text)) as Hss.
  pose proof (fun h => sorted_hits_label (index st') (embed text) h) as Hlab.
  pose proof (fun h => sorted_hits_in (index st') (embed text) h) as Hin.
  pose proof (sorted_hits_perm (index st') (embed text)) as Hperm.
  destruct (HitSort.sort (all_hits (index st') (embed text))) as [|h rest] eqn:E.
  { simpl in Hlen. rewrite length_app in Hlen. simpl in Hlen. lia. }
  destruct (Hlab h (or_introl eq_refl)) as [Hl0 Hl1].
  assert (Hf : (snd h <? Z.of_nat (length (metadata st')))%Z = true)
    by (apply Z.ltb_lt; rewrite Hm; exact Hl1).
  cbn [firstn filter]. rewrite Hf. cbn [map].
  eexists _, _. split; [reflexivity|]. split.
  - assert (Hh0 : In (sqdist (embed text) (embed text), Z.of_nat (length (index st)))
                     (h :: rest)).
    { eapply Permutation_in; [exact Hperm|]. apply all_hits_in.
      rewrite Hi, nth_error_app2 by lia. now rewrite Nat.sub_diag. }
    assert (Hle : (fst h <= sqdist (embed text) (embed text))%Q).
    { destruct Hh0 as [Eh0|Hh0]; [rewrite Eh0; apply Qle_refl|].
      apply StronglySorted_inv in Hss as [_ Hx].
      exact (hit_leb_le _ _ (proj1 (Forall_forall _ _) Hx _ Hh0)). }
    destruct (Hin h (or_introl eq_refl)) as (n & v & _ & _ & Hd).
    assert (H0 : (0 <= fst h)%Q) by (rewrite Hd; apply sqdist_nonneg).
    rewrite sqdist_self in Hle.
    assert (Eh : (fst h == 0)%Q) by lra.
    rewrite (similarity_eq _ _ Eh). reflexivity.
  - apply nth_In. lia.
Qed.

(** X: [search] is exact nearest-neighbour search: a stored vector that
    has a metadata record but is not among the returned ids is no more
    similar to the query than any returned result. *)
Theorem search_exact (embed : string -> vec) (st : VectorStore) (query : string) (k : Z)
  (Hc : count st <> 0) (Hk : (1 <= k)%Z) :
  exists hits : list hit,
    search embed st query k = inr (map (result_of (metadata st)) hits) /\
    forall h, In h hits ->
      forall n v, nth_error (index st) n = Some v -> n < length (metadata st) ->
        ~ In (Z.of_nat n) (map snd hits) ->
        (similarity (sqdist (embed query) v) <= similarity (fst h))%Q.
Proof.
  rewrite (search_nonempty embed st query k Hc Hk). cbv zeta.
  set (S := HitSort.sort (all_hits (index st) (embed query))).
  set (m := Z.to_nat (Z.min k (Z.of_nat (count st)))).
  set (p := fun h : hit => (snd h <? Z.of_nat (length (metadata st)))%Z).
  exists (filter p (firstn m S)). split; [reflexivity|].
  intros h Hh n v Hv Hn Hnot.
  apply filter_In in Hh as [Hh _].
  set (x := (sqdist (embed query) v, Z.of_nat n)).
  assert (HxS : In x S).
  { eapply Permutation_in; [apply sorted_hits_perm|]. now apply all_hits_in. }
  assert (Hxf : ~ In x (firstn m S)).
  { intros Hx. apply Hnot. apply in_map_iff. exists x. split; [reflexivity|].
    apply filter_In. split; [exact Hx|]. unfold p, x. simpl. apply Z.ltb_lt. lia. }
  assert (Hxs : In x (skipn m S)).
  { rewrite <- (firstn_skipn m S) in HxS. apply in_app_or in HxS as [HxS|HxS];
      [contradiction|exact HxS]. }
  pose proof (StronglySorted_firstn_skipn _ m S (sorted_hits_strong _ _) h x Hh Hxs) as Hle.
  apply hit_leb_le in Hle. simpl in Hle.
  apply similarity_anti; [|exact Hle].
  destruct (sorted_hits_in (index st) (embed query) h (in_firstn_in m S h Hh))
    as (n' & v' & _ & _ & ->).
  apply sqdist_nonneg.
Qed.

(** X: [add_batch] appends one vector per text but one metadata record
    per (text, dict) pair of [zip]: on a store whose index and metadata
    have equal length, they still do afterwards exactly when there are no
    more texts than dicts. *)
Theorem add_batch_paired_iff (embed : string -> vec) (st : VectorStore)
  (texts : list string) (mds : list meta) (now : nat -> string) (Hp : paired st) :
  length (index (add_batch embed st texts mds now)) = length (index st) + length texts /\
  length (metadata (add_batch embed st texts mds now)) =
    length (metadata st) + Nat.min (length texts) (length mds) /\
  (paired (add_batch embed st texts mds now) <-> length texts <= length mds).
Proof.
  unfold paired in *. simpl. rewrite !length_app, !length_map, stamp_records_length.
  split; [reflexivity|]. split; [reflexivity|]. lia.
Qed.

(** X: a store saved and then opened by a new [VectorStore] (whose
    [__init__] finds the index file and loads) has the same vectors and
    metadata, so it answers every search the same way; loading the saved
    files into any store replaces its vectors and metadata by the saved
    ones. *)
Theorem save_then_init (st : VectorStore) (dk : Disk) :
  init (save st dk) = st /\
  (forall st0, load st0 (save st dk) = st) /\
  forall embed query k, search embed (init (save st dk)) query k = search embed st query k.
Proof.
  assert (E : init (save st dk) = st) by (destruct st; reflexivity).
  split; [exact E|]. split; [intros st0; destruct st; reflexivity|]. intros. now rewrite E.
Qed.

Lemma stamp_records_as_adds (embed : string -> vec) (texts : list string) (mds : list meta)
  (now : nat -> string) (i : nat) (st : VectorStore) (Hlen : length texts = length mds) :
  mkStore (index st ++ map embed texts) (metadata st ++ stamp_records texts mds now i) =
  fold_left (fun s p => fst (add embed s (fst (snd p)) (snd (snd p)) (now (fst p))))
            (combine (seq i (length texts)) (combine texts mds)) st.
Proof.
  revert st mds i Hlen. induction texts as [|t texts IH]; intros st mds i Hlen.
  - destruct st; simpl. now rewrite !app_nil_r.
  - destruct mds as [|m mds]; [discriminate|]. simpl in Hlen |- *.
    rewrite <- IH by lia. simpl. now rewrite <- !app_assoc.
Qed.

(** X: [add_batch] of texts and dicts of equal length gives the same
    store as calling [add] on each (text, dict) pair in turn, the [i]-th
    call reading the clock reading of the [i]-th record. *)
Theorem add_batch_as_adds (embed : string -> vec) (st : VectorStore) (texts : list string)
  (mds : list meta) (now : nat -> string) (Hlen : length texts = length mds) :
  add_batch embed st texts mds now =
  fold_left (fun s p => fst (add embed s (fst (snd p)) (snd (snd p)) (now (fst p))))
            (combine (seq 0 (length texts)) (combine texts mds)) st.
Proof. unfold add_batch. now apply stamp_records_as_adds. Qed.

Lemma add_then_search_self_witness :
  paired empty_store /\
  exists m s, search length_embed (fst (add length_embed empty_store "disk full" ∅ "t"))
                "disk full" 1 = inr [(m, s)] /\ (s == 1)%Q.
Proof.
  split; [reflexivity|].
  destruct (add_then_search_self length_embed empty_store "disk full" ∅ "t" eq_refl)
    as (m & s & H1 & H2 & _).
  exists m, s. split; [exact H1|exact H2].
Defined.

Lemma search_exact_witness :
  count (mkStore [[0%Q]; [1%Q]] [∅; ∅]) <> 0 /\ (1 <= 1)%Z /\
  exists hits : list hit,
    search length_embed (mkStore [[0%Q]; [1%Q]] [∅; ∅]) "a" 1 = inr (map (result_of [∅; ∅]) hits).
Proof.
  split; [discriminate|]. split; [lia|].
  destruct (search_exact length_embed (mkStore [[0%Q]; [1%Q]] [∅; ∅]) "a" 1
              ltac:(discriminate) ltac:(lia)) as (hits & H & _).
  now exists hits.
Defined.

Lemma add_batch_paired_iff_witness :
  paired empty_store /\ ~ paired (add_batch length_embed empty_store ["a"; "b"] [∅] (fun _ => "t")).
Proof.
  split; [reflexivity|].
  destruct (add_batch_paired_iff length_embed empty_store ["a"; "b"] [∅] (fun _ => "t") eq_refl)
    as (_ & _ & H).
  rewrite H. simpl. lia.
Defined.

Lemma add_batch_as_adds_witness :
  length ["a"; "b"] = length [∅; ∅ : meta] /\
  add_batch length_embed empty_store ["a"; "b"] [∅; ∅] (fun i => if Nat.eqb i 0 then "t0" else "t1") =
  fst (add length_embed (fst (add length_embed empty_store "a" ∅ "t0")) "b" ∅ "t1").
Proof.
  split; [reflexivity|].
  exact (add_batch_as_adds length_embed empty_store ["a"; "b"] [∅; ∅]
           (fun i => if Nat.eqb i 0 then "t0" else "t1") eq_refl).
Defined.

Lemma firstn_le_app {A} (m m' : nat) (l : list A) :
  m <= m' -> exists extra, firstn m' l = (firstn m l ++ extra)%list.
Proof.
  intros H.
  assert (E : firstn m' l = firstn m' (firstn m l ++ skipn m l)) by now rewrite firstn_skipn.
  rewrite E, firstn_app, firstn_firstn. replace (Nat.min m' m) with m by lia. eauto.
Qed.

(** X: asking [search] for more results only adds results at the end:
    for [1 <= k <= k'], the results for [k] are a prefix of those for
    [k']. *)
Theorem search_prefix (embed : string -> vec) (st : VectorStore) (query : string) (k k' : Z)
  (Hk : (1 <= k)%Z) (Hkk : (k <= k')%Z) :
  exists r r' extra,
    search embed st query k = inr r /\ search embed st query k' = inr r' /\
    r' = (r ++ extra)%list.
Proof.
  destruct (Nat.eq_dec (count st) 0) as [Hc|Hc].
  - rewrite !search_empty by exact Hc. exists [], [], []. auto.
  - rewrite (search_nonempty embed st query k Hc Hk),
            (search_nonempty embed st query k' Hc ltac:(lia)).
    cbv zeta.
    destruct (firstn_le_app (Z.to_nat (Z.min k (Z.of_nat (count st))))
                            (Z.to_nat (Z.min k' (Z.of_nat (count st))))
                            (HitSort.sort (all_hits (index st) (embed query))) ltac:(lia))
      as (extra & Ex).
    rewrite Ex, filter_app, map_app. eauto 6.
Qed.

Lemma search_prefix_witness :
  (1 <= 1)%Z /\ (1 <= 2)%Z /\
  exists r r', search length_embed (mkStore [[0%Q]; [1%Q]] [∅; ∅]) "a" 1 = inr r /\
               search length_embed (mkStore [[0%Q]; [1%Q]] [∅; ∅]) "a" 2 = inr r'.
Proof.
  split; [lia|]. split; [lia|].
  destruct (search_prefix length_embed (mkStore [[0%Q]; [1%Q]] [∅; ∅]) "a" 1 2
              ltac:(lia) ltac:(lia)) as (r & r' & extra & H1 & H2 & _).
  now exists r, r'.
Defined.

End VSMore.

Module RMMore.
Import OS RM.
Local Open Scope string_scope.

Lemma renice_cases (rm : Manager) (os : Os) (pid n : Z) :
  let '(r, rm', os') := renice_process rm os pid n in
  (rm' = rm /\ os' = os) \/
  (dry_run rm = false /\ success r = true /\ rm' = record rm r /\
   exists p, procs os !! pid = Some p /\ p_permitted p = true /\ (p_nice p < n)%Z /\
             os' = set_nice os pid p n).
Proof.
  unfold renice_process. destruct (procs os !! pid) as [p|] eqn:Hp; [|now left].
  destruct (n <=? p_nice p)%Z eqn:Hn; [now left|].
  destruct (dry_run rm) eqn:Hd; [now left|].
  destruct (p_permitted p) eqn:Hperm; simpl; [|now left].
  right. repeat split; auto. exists p. repeat split; auto. apply Z.leb_gt in Hn. exact Hn.
Qed.

Lemma graceful_cases (rm : Manager) (os : Os) (pid w : Z) :
  let '(r, rm', os') := graceful_stop rm os pid w in
  (rm' = rm /\ os' = os /\ exists r0, r = inr r0) \/
  (dry_run rm = false /\ (w < 0)%Z /\ r = inl ValueError /\ rm' = rm /\
   exists p, procs os !! pid = Some p /\ p_permitted p = true /\
             os' = send_signal os pid SIGTERM (p_exits_on_term p && p_reaped_at_once p)) \/
  (dry_run rm = false /\ (0 <= w)%Z /\
   exists r0, r = inr r0 /\ rm' = record rm r0 /\
   exists p, procs os !! pid = Some p /\ p_permitted p = true /\
             success r0 = p_exits_on_term p /\
             os' = send_signal os pid SIGTERM (p_exits_on_term p)).
Proof.
  unfold graceful_stop. destruct (procs os !! pid) as [p|] eqn:Hp; [|left; eauto].
  destruct (dry_run rm) eqn:Hd; [left; eauto|].
  destruct (p_permitted p) eqn:Hperm; simpl; [|left; eauto].
  destruct (w <? 0)%Z eqn:Hw.
  - right; left. apply Z.ltb_lt in Hw. repeat split; auto. exists p. auto.
  - right; right. apply Z.ltb_ge in Hw. repeat split; auto.
    eexists; split; [reflexivity|]. split; [reflexivity|].
    exists p. repeat split; auto. now destruct (p_exits_on_term p).
Qed.

Lemma force_cases (rm : Manager) (os : Os) (pid : Z) :
  let '(r, rm', os') := force_kill rm os pid in
  (rm' = rm /\ os' = os) \/
  (dry_run rm = false /\ success r = true /\ rm' = record rm r /\
   exists p, procs os !! pid = Some p /\ p_permitted p = true /\
             os' = send_signal os pid SIGKILL (p_reaped_at_once p)).
Proof.
  unfold force_kill. destruct (procs os !! pid) as [p|] eqn:Hp; [|now left].
  destruct (dry_run rm) eqn:Hd; [now left|].
  destruct (p_permitted p) eqn:Hperm; simpl; [|now left].
  right. repeat split; auto. exists p. repeat split; auto.
Qed.


(** X: [remediation_history] is an audit log of the changes: each tier
    either leaves both the history and the system untouched, or runs in
    live mode and appends its own result to the history (renice and
    force_kill only when they succeed; graceful_stop also when the process
    ignores SIGTERM, after sending it). The one exception is
    graceful_stop with a negative wait: it sends SIGTERM, then psutil's
    [wait] raises [ValueError] and nothing is recorded. *)
Theorem remediation_history_audit (rm : Manager) (os : Os) (pid n w : Z) :
  (let '(r, rm', os') := renice_process rm os pid n in
     (rm' = rm /\ os' = os) \/ (dry_run rm = false /\ success r = true /\ rm' = record rm r)) /\
  (let '(r, rm', os') := graceful_stop rm os pid w in
     (rm' = rm /\ os' = os) \/
     (dry_run rm = false /\ (exists r0, r = inr r0 /\ rm' = record rm r0) /\
      signals os' = (signals os ++ [(pid, SIGTERM)])%list) \/
     (dry_run rm = false /\ (w < 0)%Z /\ r = inl ValueError /\ rm' = rm /\
      signals os' = (signals os ++ [(pid, SIGTERM)])%list)) /\
  (let '(r, rm', os') := force_kill rm os pid in
     (rm' = rm /\ os' = os) \/ (dry_run rm = false /\ success r = true /\ rm' = record rm r)).
Proof.
  split; [|split].
  - pose proof (renice_cases rm os pid n) as H.
    destruct (renice_process rm os pid n) as [[r rm'] os'].
    destruct H as [H|(H1 & H2 & H3 & _)]; [now left|now right].
  - pose proof (graceful_cases rm os pid w) as H.
    destruct (graceful_stop rm os pid w) as [[r rm'] os'].
    destruct H as [(H1 & H2 & _)|[(H1 & H2 & H3 & H4 & p & _ & _ & ->)|
                                  (H1 & H2 & r0 & -> & H4 & p & _ & _ & _ & ->)]].
    + now left.
    + right; right. repeat split; auto.
    + right; left. repeat split; eauto.
  - pose proof (force_cases rm os pid) as H.
    destruct (force_kill rm os pid) as [[r rm'] os'].
    destruct H as [H|(H1 & H2 & H3 & _)]; [now left|now right].
Qed.

(** X: in live mode, [graceful_stop] on a process the agent may signal
    sends SIGTERM to it exactly once and leaves every other process alone.
    With a wait of at least zero it reports success exactly when the
    process exits, removes it from the process table exactly then and
    records its result in the history; with a negative wait psutil's
    [wait] raises [ValueError] after SIGTERM was sent, and nothing is
    recorded. *)
Theorem graceful_stop_live (rm : Manager) (os : Os) (pid w : Z) (p : Proc)
  (Hd : dry_run rm = false) (Hp : procs os !! pid = Some p) (Hperm : p_permitted p = true) :
  let '(r, rm', os') := graceful_stop rm os pid w in
  signals os' = (signals os ++ [(pid, SIGTERM)])%list /\ events os' = events os /\
  (forall q, q <> pid -> procs os' !! q = procs os !! q) /\
  ((0 <= w)%Z ->
     exists r0, r = inr r0 /\ success r0 = p_exits_on_term p /\
     (procs os' !! pid = None <-> p_exits_on_term p = true) /\
     rm' = record rm r0) /\
  ((w < 0)%Z -> r = inl ValueError /\ rm' = rm).
Proof.
  unfold graceful_stop. rewrite Hp, Hd, Hperm. simpl.
  assert (Hdel : forall b : bool, forall q, q <> pid ->
            (if b then delete pid (procs os) else procs os) !! q = procs os !! q).
  { intros [|] q Hq; [now apply lookup_delete_ne|reflexivity]. }
  destruct (w <? 0)%Z eqn:Hw; simpl.
  - apply Z.ltb_lt in Hw.
    split; [reflexivity|]. split; [reflexivity|]. split; [apply Hdel|].
    split; [intros; lia|]. auto.
  - apply Z.ltb_ge in Hw.
    split; [reflexivity|]. split; [reflexivity|]. split; [apply Hdel|].
    split; [|intros; lia]. intros _.
    destruct (p_exits_on_term p) eqn:He; simpl; eexists;
      (split; [reflexivity|]); (split; [reflexivity|]); (split; [|reflexivity]).
    + split; [intros _; reflexivity|]. intros _. apply lookup_delete_eq.
    + rewrite Hp. split; discriminate.
Qed.

(** X: when the pid is not in the process table, every tier and
    [smart_remediate] report failure, raise nothing and change neither the
    history nor the system, in both modes. *)
Theorem remediation_missing_process (rm : Manager) (os : Os) (pid n w : Z)
  (Hp : procs os !! pid = None) :
  (let '(r, rm', os') := renice_process rm os pid n in
     success r = false /\ rm' = rm /\ os' = os) /\
  (let '(r, rm', os') := graceful_stop rm os pid w in
     (exists r0, r = inr r0 /\ success r0 = false) /\ rm' = rm /\ os' = os) /\
  (let '(r, rm', os') := force_kill rm os pid in
     success r = false /\ rm' = rm /\ os' = os) /\
  (let '(rs, rm', os') := smart_remediate rm os pid in
     (exists rs0, rs = inr rs0 /\ Forall (fun r => success r = false) rs0) /\ rm' = rm /\ os' = os).
Proof.
  unfold smart_remediate, renice_process, graceful_stop, force_kill. rewrite Hp.
  split; [auto|]. split; [eauto|]. split; [auto|].
  destruct (dry_run rm) eqn:Hd; simpl; rewrite ?Hp, ?Hd; simpl; rewrite ?Hp; simpl;
    (split; [eexists; split; [reflexivity|repeat constructor]|auto]).
Qed.

(** X: in live mode, a tier aimed at a process the agent may not signal
    or renice (psutil raises AccessDenied) reports failure and changes
    neither the history nor the system; renice only gets that far when
    the requested niceness is above the current one. *)
Theorem remediation_permission_denied (rm : Manager) (os : Os) (pid n w : Z) (p : Proc)
  (Hd : dry_run rm = false) (Hp : procs os !! pid = Some p) (Hperm : p_permitted p = false)
  (Hn : (p_nice p < n)%Z) :
  (let '(r, rm', os') := renice_process rm os pid n in
     success r = false /\ rm' = rm /\ os' = os) /\
  (let '(r, rm', os') := graceful_stop rm os pid w in
     (exists r0, r = inr r0 /\ success r0 = false) /\ rm' = rm /\ os' = os) /\
  (let '(r, rm', os') := force_kill rm os pid in
     success r = false /\ rm' = rm /\ os' = os).
Proof.
  unfold renice_process, graceful_stop, force_kill. rewrite Hp, Hd, Hperm.
  assert (E : (n <=? p_nice p)%Z = false) by (apply Z.leb_gt; exact Hn).
  rewrite E. simpl.
  split; [auto|]. split; [split; [eexists; split; reflexivity|auto]|auto].
Qed.

(** X: [renice_process] never lowers a process's niceness (never raises
    its priority) when it starts in the Linux range up to 19: the process
    stays in the table with a niceness at least the old one and its name,
    every other process is unchanged and no signal is sent. *)
Theorem renice_never_lowers (rm : Manager) (os : Os) (pid n : Z) (p : Proc)
  (Hp : procs os !! pid = Some p) (Hrange : (p_nice p <= 19)%Z) :
  let '(_, _, os') := renice_process rm os pid n in
  (exists p', procs os' !! pid = Some p' /\ (p_nice p <= p_nice p')%Z /\ p_name p' = p_name p) /\
  (forall q, q <> pid -> procs os' !! q = procs os !! q) /\
  signals os' = signals os /\ events os' = events os.
Proof.
  pose proof (renice_cases rm os pid n) as H.
  destruct (renice_process rm os pid n) as [[r rm'] os'].
  destruct H as [[_ ->]|(_ & _ & _ & p0 & Hp0 & _ & Hn & ->)].
  - split; [exists p; split; [exact Hp|split; [lia|reflexivity]]|]. auto.
  - rewrite Hp in Hp0. injection Hp0 as <-. unfold set_nice. simpl.
    split; [|split; [intros q Hq; now apply lookup_insert_ne|auto]].
    eexists. split; [apply lookup_insert_eq|]. simpl. split; [|reflexivity].
    unfold clamp_nice. lia.
Qed.

Lemma smart_live_effect (rm : Manager) (os : Os) (pid : Z)
  (Hd : dry_run rm = false) :
  let '(rs, rm', os') := smart_remediate rm os pid in
  signals os' = signals os /\ events os' = events os /\
  (forall q, procs os' !! q = None <-> procs os !! q = None) /\
  dry_run rm' = false /\
  length (remediation_history rm') <= S (length (remediation_history rm)).
Proof.
  pose proof (renice_cases rm os pid 19) as H.
  unfold smart_remediate.
  destruct (renice_process rm os pid 19) as [[r1 rm1] os1].
  destruct H as [[-> ->]|(_ & _ & -> & p & Hp & _ & _ & ->)]; rewrite ?Hd; simpl.
  - repeat split; auto.
  - rewrite Hd. simpl. repeat split; [| |exact Hd|rewrite length_app; simpl; lia].
    + destruct (decide (q = pid)) as [->|Hq].
      * rewrite lookup_insert_eq, Hp. intros; discriminate.
      * rewrite lookup_insert_ne by congruence. auto.
    + destruct (decide (q = pid)) as [->|Hq].
      * rewrite Hp. intros; discriminate.
      * rewrite lookup_insert_ne by congruence. auto.
Qed.
(** X: in live mode (the daemon's [ResourceManager(dry_run=False)])
    [smart_remediate] never signals, stops or kills a process: the
    signals sent and the set of running processes are unchanged, and the
    history grows by at most the one renice result. *)
Theorem smart_remediate_live_no_kill (rm : Manager) (os : Os) (pid : Z)
  (Hd : dry_run rm = false) :
  let '(rs, rm', os') := smart_remediate rm os pid in
  signals os' = signals os /\ events os' = events os /\
  (forall q, procs os' !! q = None <-> procs os !! q = None) /\
  dry_run rm' = false /\
  length (remediation_history rm') <= S (length (remediation_history rm)).
Proof. exact (smart_live_effect rm os pid Hd). Qed.

Lemma graceful_stop_live_witness :
  dry_run (mkManager false []) = false /\
  procs (mkOs {[7%Z := mkProc "hog" 0 true true true]} [] []) !! 7%Z = Some (mkProc "hog" 0 true true true) /\
  p_permitted (mkProc "hog" 0 true true true) = true /\
  fst (fst (graceful_stop (mkManager false [])
              (mkOs {[7%Z := mkProc "hog" 0 true true true]} [] []) 7 (-1))) = inl ValueError /\
  exists r0, fst (fst (graceful_stop (mkManager false [])
                         (mkOs {[7%Z := mkProc "hog" 0 true true true]} [] []) 7 5)) = inr r0 /\
             success r0 = true.
Proof.
  split; [reflexivity|]. split; [reflexivity|]. split; [reflexivity|].
  pose proof (graceful_stop_live (mkManager false []) (mkOs {[7%Z := mkProc "hog" 0 true true true]} [] [])
                7 (-1) (mkProc "hog" 0 true true true) eq_refl eq_refl eq_refl) as Hneg.
  pose proof (graceful_stop_live (mkManager false []) (mkOs {[7%Z := mkProc "hog" 0 true true true]} [] [])
                7 5 (mkProc "hog" 0 true true true) eq_refl eq_refl eq_refl) as H.
  split.
  - destruct (graceful_stop (mkManager false []) (mkOs {[7%Z := mkProc "hog" 0 true true true]} [] []) 7 (-1))
      as [[r rm'] os'].
    destruct Hneg as (_ & _ & _ & _ & Hn). exact (proj1 (Hn ltac:(lia))).
  - destruct (graceful_stop (mkManager false []) (mkOs {[7%Z := mkProc "hog" 0 true true true]} [] []) 7 5)
      as [[r rm'] os'].
    destruct H as (_ & _ & _ & Hp & _). destruct (Hp ltac:(lia)) as (r0 & -> & Hs & _).
    exists r0. split; [reflexivity|exact Hs].
Defined.

Lemma remediation_missing_process_witness :
  procs (mkOs ∅ [] []) !! 7%Z = None /\
  success (fst (fst (force_kill (mkManager false []) (mkOs ∅ [] []) 7))) = false.
Proof.
  split; [reflexivity|].
  pose proof (remediation_missing_process (mkManager false []) (mkOs ∅ [] []) 7 19 5 eq_refl) as H.
  destruct H as (_ & _ & H & _).
  destruct (force_kill (mkManager false []) (mkOs ∅ [] []) 7) as [[r rm'] os'].
  exact (proj1 H).
Defined.

Lemma remediation_permission_denied_witness :
  dry_run (mkManager false []) = false /\
  procs (mkOs {[1%Z := mkProc "init" 0 false false true]} [] []) !! 1%Z =
    Some (mkProc "init" 0 false false true) /\
  p_permitted (mkProc "init" 0 false false true) = false /\ (p_nice (mkProc "init" 0 false false true) < 19)%Z /\
  success (fst (fst (renice_process (mkManager false [])
                       (mkOs {[1%Z := mkProc "init" 0 false false true]} [] []) 1 19))) = false.
Proof.
  split; [reflexivity|]. split; [reflexivity|]. split; [reflexivity|]. split; [simpl; lia|].
  pose proof (remediation_permission_denied (mkManager false [])
                (mkOs {[1%Z := mkProc "init" 0 false false true]} [] []) 1 19 5
                (mkProc "init" 0 false false true) eq_refl eq_refl eq_refl ltac:(simpl; lia)) as H.
  destruct H as (H & _).
  destruct (renice_process (mkManager false []) (mkOs {[1%Z := mkProc "init" 0 false false true]} [] []) 1 19)
    as [[r rm'] os'].
  exact (proj1 H).
Defined.

Lemma renice_never_lowers_witness :
  procs (mkOs {[7%Z := mkProc "hog" 5 true true true]} [] []) !! 7%Z = Some (mkProc "hog" 5 true true true) /\
  (p_nice (mkProc "hog" 5 true true true) <= 19)%Z /\
  exists p', procs (snd (renice_process (mkManager false [])
                           (mkOs {[7%Z := mkProc "hog" 5 true true true]} [] []) 7 (-10))) !! 7%Z = Some p' /\
             (5 <= p_nice p')%Z.
Proof.
  split; [reflexivity|]. split; [simpl; lia|].
  pose proof (renice_never_lowers (mkManager false []) (mkOs {[7%Z := mkProc "hog" 5 true true true]} [] [])
                7 (-10) (mkProc "hog" 5 true true true) eq_refl ltac:(simpl; lia)) as H.
  destruct (renice_process (mkManager false []) (mkOs {[7%Z := mkProc "hog" 5 true true true]} [] []) 7 (-10))
    as [[r rm'] os'].
  destruct H as ((p' & Hp' & Hn & _) & _). exists p'. split; [exact Hp'|exact Hn].
Defined.

Lemma smart_remediate_live_no_kill_witness :
  dry_run (mkManager false []) = false /\
  signals (snd (smart_remediate (mkManager false []) (mkOs {[7%Z := mkProc "hog" 0 true true true]} [] []) 7)) = [].
Proof.
  split; [reflexivity|].
  pose proof (smart_remediate_live_no_kill (mkManager false [])
                (mkOs {[7%Z := mkProc "hog" 0 true true true]} [] []) 7 eq_refl) as H.
  destruct (smart_remediate (mkManager false []) (mkOs {[7%Z := mkProc "hog" 0 true true true]} [] []) 7)
    as [[rs rm'] os'].
  exact (proj1 H).
Defined.

End RMMore.

Module HogsMore.
Import Hogs.

Lemma insert_desc_perm (a : Hog) (l : list Hog) : Permutation (a :: l) (insert_desc a l).
Proof.
  induction l as [|b l IH]; simpl; [reflexivity|].
  destruct (Qle_bool (key b) (key a)); [reflexivity|].
  rewrite perm_swap. now apply perm_skip.
Qed.

Lemma sort_desc_perm (l : list Hog) : Permutation l (sort_desc l).
Proof.
  induction l as [|a l IH]; simpl; [reflexivity|].
  rewrite <- insert_desc_perm. now apply perm_skip.
Qed.

Lemma insert_desc_hd (x a : Hog) (l : list Hog) :
  HdRel key_desc x l -> key_desc x a -> HdRel key_desc x (insert_desc a l).
Proof.
  destruct l as [|b l]; simpl; intros Hl Ha; [now constructor|].
  destruct (Qle_bool (key b) (key a)); constructor; [exact Ha|].
  now apply HdRel_inv in Hl.
Qed.

Lemma insert_desc_sorted (a : Hog) (l : list Hog) :
  Sorted key_desc l -> Sorted key_desc (insert_desc a l).
Proof.
  induction l as [|b l IH]; intros Hs; simpl; [repeat constructor|].
  destruct (Qle_bool (key b) (key a)) eqn:E.
  - constructor; [exact Hs|]. constructor. now apply Qle_bool_iff in E.
  - apply Sorted_inv in Hs as [Hs Hr]. constructor; [now apply IH|].
    apply insert_desc_hd; [exact Hr|]. unfold key_desc.
    apply Qlt_le_weak, Qnot_le_lt. intros H. apply Qle_bool_iff in H. congruence.
Qed.

Lemma sort_desc_sorted (l : list Hog) : Sorted key_desc (sort_desc l).
Proof.
  induction l as [|a l IH]; simpl; [constructor|]. now apply insert_desc_sorted.
Qed.

Section ScanFacts.
Variable read_process : Z -> option ProcStats.

Lemma get_process_info_pid (p : Z) (i : ProcInfo) :
  get_process_info read_process p = Some i -> pid i = p.
Proof.
  unfold get_process_info. destruct (read_process p); [|discriminate].
  intros H. now injection H as <-.
Qed.

Lemma scan_sound (ct mt : Q) (ps : list sample) (h : Hog) :
  In h (scan read_process ct mt ps) ->
  exists cpu mem,
    In (pid (info h), Some (cpu, mem)) ps /\
    get_process_info read_process (pid (info h)) = Some (info h) /\
    reason h = ((if Engine.Qgt_bool cpu ct then [CPU cpu] else []) ++
                (if Engine.Qgt_bool mem mt then [Memory mem] else []))%list /\
    (ct < cpu \/ mt < mem)%Q.
Proof.
  induction ps as [|[p [[cpu mem]|]] ps IH]; simpl; [contradiction| |].
  - destruct (Engine.Qgt_bool cpu ct || Engine.Qgt_bool mem mt) eqn:Eo.
    + destruct (get_process_info read_process p) as [i|] eqn:Ei.
      * intros [<-|H].
        -- simpl. rewrite (get_process_info_pid p i Ei).
           exists cpu, mem. split; [now left|]. split; [exact Ei|]. split; [reflexivity|].
           apply Bool.orb_true_iff in Eo as [Eo|Eo];
             [left|right]; now apply EngineFacts.Qgt_bool_iff.
        -- destruct (IH H) as (c & m & Hin & Hr). exists c, m. split; [now right|exact Hr].
      * intros H. destruct (IH H) as (c & m & Hin & Hr). exists c, m. split; [now right|exact Hr].
    + intros H. destruct (IH H) as (c & m & Hin & Hr). exists c, m. split; [now right|exact Hr].
  - intros H. destruct (IH H) as (c & m & Hin & Hr). exists c, m. split; [now right|exact Hr].
Qed.

Lemma scan_complete (ct mt : Q) (ps : list sample) (p : Z) (cpu mem : Q) (i : ProcInfo) :
  In (p, Some (cpu, mem)) ps -> (ct < cpu \/ mt < mem)%Q ->
  get_process_info read_process p = Some i ->
  exists h, In h (scan read_process ct mt ps) /\ info h = i.
Proof.
  intros Hin Hover Hi. induction ps as [|[p' [[c m]|]] ps IH]; simpl in Hin |- *;
    [contradiction| |].
  - destruct Hin as [E|Hin].
    + injection E as -> -> ->.
      assert (Eo : (Engine.Qgt_bool cpu ct || Engine.Qgt_bool mem mt)%bool = true).
      { apply Bool.orb_true_iff. destruct Hover as [H|H];
          [left|right]; now apply EngineFacts.Qgt_bool_iff. }
      rewrite Eo, Hi. eexists. split; [now left|reflexivity].
    + destruct (IH Hin) as (h & Hh & Ei).
      destruct (Engine.Qgt_bool c ct || Engine.Qgt_bool m mt);
        [destruct (get_process_info read_process p')|];
        exists h; (split; [|exact Ei]); try right; exact Hh.
  - destruct Hin as [E|Hin]; [discriminate|]. exact (IH Hin).
Qed.

Lemma scan_length (ct mt : Q) (ps : list sample) :
  length (scan read_process ct mt ps) <= length ps.
Proof.
  induction ps as [|[p [[c m]|]] ps IH]; simpl; [lia| |lia].
  destruct (Engine.Qgt_bool c ct || Engine.Qgt_bool m mt);
    [destruct (get_process_info read_process p)|]; simpl; lia.
Qed.

End ScanFacts.

(** X: [find_resource_hogs] lists hogs by non-increasing
    [cpu_percent + memory_percent], at most one per process reported by
    psutil; each is the [get_process_info] dict of a process whose
    measured CPU or memory share exceeded its threshold, and its reasons
    name exactly the thresholds exceeded, so they are never empty. *)
Theorem find_resource_hogs_sound (read_process : Z -> option ProcStats) (ct mt : Q)
  (ps : list sample) :
  let hogs := find_resource_hogs read_process ct mt ps in
  Sorted (fun a b => (key b <= key a)%Q) hogs /\
  length hogs <= length ps /\
  Forall (fun h => exists cpu mem,
    In (pid (info h), Some (cpu, mem)) ps /\
    get_process_info read_process (pid (info h)) = Some (info h) /\
    reason h = ((if Engine.Qgt_bool cpu ct then [CPU cpu] else []) ++
                (if Engine.Qgt_bool mem mt then [Memory mem] else []))%list /\
    reason h <> [] /\ (ct < cpu \/ mt < mem)%Q) hogs.
Proof.
  intros hogs. unfold hogs, find_resource_hogs.
  split; [apply sort_desc_sorted|].
  split; [rewrite <- (Permutation_length (sort_desc_perm _)); apply scan_length|].
  apply Forall_forall. intros h Hh.
  apply (Permutation_in _ (Permutation_sym (sort_desc_perm _))) in Hh.
  destruct (scan_sound read_process ct mt ps h Hh) as (cpu & mem & H1 & H2 & H3 & H4).
  exists cpu, mem. split; [exact H1|]. split; [exact H2|]. split; [exact H3|].
  split; [|exact H4]. rewrite H3.
  destruct H4 as [H4|H4].
  - apply EngineFacts.Qgt_bool_iff in H4. rewrite H4. discriminate.
  - apply EngineFacts.Qgt_bool_iff in H4. rewrite H4.
    destruct (Engine.Qgt_bool cpu ct); discriminate.
Qed.

(** X: [find_resource_hogs] misses no hog: a process whose measured CPU
    or memory share exceeds its threshold and that [get_process_info] can
    still read is reported, with that information. *)
Theorem find_resource_hogs_complete (read_process : Z -> option ProcStats) (ct mt : Q)
  (ps : list sample) (p : Z) (cpu mem : Q) (i : ProcInfo)
  (Hin : In (p, Some (cpu, mem)) ps) (Hover : (ct < cpu \/ mt < mem)%Q)
  (Hi : get_process_info read_process p = Some i) :
  exists h, In h (find_resource_hogs read_process ct mt ps) /\ info h = i.
Proof.
  destruct (scan_complete read_process ct mt ps p cpu mem i Hin Hover Hi) as (h & Hh & Ei).
  exists h. split; [|exact Ei].
  eapply Permutation_in; [apply sort_desc_perm|exact Hh].
Qed.

Lemma find_resource_hogs_complete_witness :
  In (7%Z, Some (95%Q, 1%Q)) [(7%Z, Some (95%Q, 1%Q))] /\ (80 < 95 \/ 50 < 1)%Q /\
  get_process_info (fun p => if (p =? 7)%Z then Some (mkStats "hog" 95 1 0 "running" "hog") else None) 7
    = Some (mkInfo 7 "hog" 95 1 0 "running" "hog") /\
  exists h, In h (find_resource_hogs
                   (fun p => if (p =? 7)%Z then Some (mkStats "hog" 95 1 0 "running" "hog") else None)
                   80 50 [(7%Z, Some (95%Q, 1%Q))]).
Proof.
  split; [now left|]. split; [left; reflexivity|]. split; [reflexivity|].
  destruct (find_resource_hogs_complete
              (fun p => if (p =? 7)%Z then Some (mkStats "hog" 95 1 0 "running" "hog") else None)
              80 50 [(7%Z, Some (95%Q, 1%Q))] 7 95 1 (mkInfo 7 "hog" 95 1 0 "running" "hog")
              (or_introl eq_refl) (or_introl eq_refl) eq_refl) as (h & Hh & _).
  now exists h.
Defined.

End HogsMore.

Module DaemonCheckMore.
Import OS RM Hogs DaemonCheck.
Local Open Scope string_scope.









End DaemonCheckMore.

Module DaemonMore.
Import Daemon.

Lemma run_cons (hi ri : Q) (tm : Timers) (t : Q) (rest : list Q) :
  run hi ri tm (t :: rest) = fst (tick hi ri tm t) :: run hi ri (snd (tick hi ri tm t)) rest.
Proof. simpl. now destruct (tick hi ri tm t). Qed.

Section Gap.
Variables (hi ri : Q).

Lemma tick_fields (tm : Timers) (t : Q) :
  let '(c, tm') := tick hi ri tm t in
  ran_resource_check c = Qle_bool ri (t - last_resource_check tm) /\
  last_resource_check tm' = (if ran_resource_check c then t else last_resource_check tm) /\
  ran_health_check c = Qle_bool hi (t - last_health_check tm) /\
  last_health_check tm' = (if ran_health_check c then t else last_health_check tm).
Proof. unfold tick. simpl. auto. Qed.

Lemma resource_gap_after (ts : list Q) : forall tm j tj,
  nth_error ts j = Some tj ->
  nth_error (map ran_resource_check (run hi ri tm ts)) j = Some true ->
  (forall k, k < j -> nth_error (map ran_resource_check (run hi ri tm ts)) k = Some false) ->
  (ri <= tj - last_resource_check tm)%Q.
Proof.
  induction ts as [|t rest IH]; intros tm j tj Hj Hr Hk; [destruct j; discriminate|].
  rewrite run_cons in Hr, Hk. pose proof (tick_fields tm t) as Ht.
  destruct (tick hi ri tm t) as [c tm'] eqn:Et. simpl in Hr, Hk.
  destruct Ht as (Hc & Htm & _ & _).
  destruct j as [|j]; simpl in Hj, Hr.
  - injection Hj as <-. injection Hr as Hr. rewrite Hr in Hc. symmetry in Hc.
    now apply Qle_bool_iff.
  - assert (H0 := Hk 0 ltac:(lia)). simpl in H0. injection H0 as H0.
    rewrite H0 in Htm. rewrite <- Htm.
    apply (IH tm' j tj Hj Hr). intros k Hkj. exact (Hk (S k) ltac:(lia)).
Qed.

Lemma resource_gap (ts : list Q) : forall tm i j ti tj,
  i < j -> nth_error ts i = Some ti -> nth_error ts j = Some tj ->
  nth_error (map ran_resource_check (run hi ri tm ts)) i = Some true ->
  nth_error (map ran_resource_check (run hi ri tm ts)) j = Some true ->
  (forall k, i < k < j -> nth_error (map ran_resource_check (run hi ri tm ts)) k = Some false) ->
  (ri <= tj - ti)%Q.
Proof.
  induction ts as [|t rest IH]; intros tm i j ti tj Hij Hi Hj Hri Hrj Hk;
    [destruct i; discriminate|].
  rewrite run_cons in Hri, Hrj, Hk. pose proof (tick_fields tm t) as Ht.
  destruct (tick hi ri tm t) as [c tm'] eqn:Et. simpl in Hri, Hrj, Hk.
  destruct Ht as (Hc & Htm & _ & _).
  destruct i as [|i], j as [|j]; try lia; simpl in Hi, Hj, Hri, Hrj.
  - injection Hi as <-. injection Hri as Hri. rewrite Hri in Htm.
    rewrite <- Htm. apply (resource_gap_after rest tm' j tj Hj Hrj).
    intros k Hkj. exact (Hk (S k) ltac:(lia)).
  - apply (IH tm' i j ti tj ltac:(lia) Hi Hj Hri Hrj).
    intros k Hk'. exact (Hk (S k) ltac:(lia)).
Qed.

Lemma health_gap_after (ts : list Q) : forall tm j tj,
  nth_error ts j = Some tj ->
  nth_error (map ran_health_check (run hi ri tm ts)) j = Some true ->
  (forall k, k < j -> nth_error (map ran_health_check (run hi ri tm ts)) k = Some false) ->
  (hi <= tj - last_health_check tm)%Q.
Proof.
  induction ts as [|t rest IH]; intros tm j tj Hj Hr Hk; [destruct j; discriminate|].
  rewrite run_cons in Hr, Hk. pose proof (tick_fields tm t) as Ht.
  destruct (tick hi ri tm t) as [c tm'] eqn:Et. simpl in Hr, Hk.
  destruct Ht as (_ & _ & Hc & Htm).
  destruct j as [|j]; simpl in Hj, Hr.
  - injection Hj as <-. injection Hr as Hr. rewrite Hr in Hc. symmetry in Hc.
    now apply Qle_bool_iff.
  - assert (H0 := Hk 0 ltac:(lia)). simpl in H0. injection H0 as H0.
    rewrite H0 in Htm. rewrite <- Htm.
    apply (IH tm' j tj Hj Hr). intros k Hkj. exact (Hk (S k) ltac:(lia)).
Qed.

Lemma health_gap (ts : list Q) : forall tm i j ti tj,
  i < j -> nth_error ts i = Some ti -> nth_error ts j = Some tj ->
  nth_error (map ran_health_check (run hi ri tm ts)) i = Some true ->
  nth_error (map ran_health_check (run hi ri tm ts)) j = Some true ->
  (forall k, i < k < j -> nth_error (map ran_health_check (run hi ri tm ts)) k = Some false) ->
  (hi <= tj - ti)%Q.
Proof.
  induction ts as [|t rest IH]; intros tm i j ti tj Hij Hi Hj Hri Hrj Hk;
    [destruct i; discriminate|].
  rewrite run_cons in Hri, Hrj, Hk. pose proof (tick_fields tm t) as Ht.
  destruct (tick hi ri tm t) as [c tm'] eqn:Et. simpl in Hri, Hrj, Hk.
  destruct Ht as (_ & _ & Hc & Htm).
  destruct i as [|i], j as [|j]; try lia; simpl in Hi, Hj, Hri, Hrj.
  - injection Hi as <-. injection Hri as Hri. rewrite Hri in Htm.
    rewrite <- Htm. apply (health_gap_after rest tm' j tj Hj Hrj).
    intros k Hkj. exact (Hk (S k) ltac:(lia)).
  - apply (IH tm' i j ti tj ltac:(lia) Hi Hj Hri Hrj).
    intros k Hk'. exact (Hk (S k) ltac:(lia)).
Qed.

End Gap.

(** X: in the daemon loop, two successive runs of the resource check
    (no run at the iterations between them) happen at clock readings at
    least [resource_check_interval] apart, and two successive health
    checks at least [health_check_interval] apart, whatever the clock
    readings are. *)
Theorem run_checks_spaced (hi ri : Q) (tm : Timers) (ts : list Q) (i j : nat) (ti tj : Q)
  (Hij : i < j) (Hi : nth_error ts i = Some ti) (Hj : nth_error ts j = Some tj) :
  (nth_error (map ran_resource_check (run hi ri tm ts)) i = Some true ->
   nth_error (map ran_resource_check (run hi ri tm ts)) j = Some true ->
   (forall k, i < k < j -> nth_error (map ran_resource_check (run hi ri tm ts)) k = Some false) ->
   (ri <= tj - ti)%Q) /\
  (nth_error (map ran_health_check (run hi ri tm ts)) i = Some true ->
   nth_error (map ran_health_check (run hi ri tm ts)) j = Some true ->
   (forall k, i < k < j -> nth_error (map ran_health_check (run hi ri tm ts)) k = Some false) ->
   (hi <= tj - ti)%Q).
Proof.
  split; [apply (resource_gap hi ri ts tm i j ti tj Hij Hi Hj)|
          apply (health_gap hi ri ts tm i j ti tj Hij Hi Hj)].
Qed.

Lemma run_checks_spaced_witness :
  0 < 2 /\ nth_error [300%Q; 400%Q; 600%Q] 0 = Some 300%Q /\
  nth_error [300%Q; 400%Q; 600%Q] 2 = Some 600%Q /\ (300 <= 600 - 300)%Q.
Proof.
  split; [lia|]. split; [reflexivity|]. split; [reflexivity|].
  destruct (run_checks_spaced 21600 300 start [300%Q; 400%Q; 600%Q] 0 2 300 600
              ltac:(lia) eq_refl eq_refl) as [H _].
  apply H; [reflexivity|reflexivity|].
  intros k Hk. assert (E : k = 1) by lia. subst k. reflexivity.
Defined.

End DaemonMore.

Module EngineMore.
Import OS Engine.
Local Open Scope string_scope.

(** X: [find_matching_runbooks] returns exactly the loaded runbooks whose
    trigger fires in the context; each is enabled and has a "disk_usage"
    or "memory_usage" trigger, and a context with neither a disk_usage
    nor a memory_usage reading matches no runbook. *)
Theorem find_matching_runbooks_spec (rbs : list Runbook) (ctx : Context) :
  let ms := find_matching_runbooks rbs ctx in
  (forall rb, In rb ms <-> In rb rbs /\ check_trigger rb ctx = true) /\
  Forall (fun rb => get (rb_enabled rb) true = true /\
            (t_type (get (rb_trigger rb) empty_trigger) = Some "disk_usage" \/
             t_type (get (rb_trigger rb) empty_trigger) = Some "memory_usage")) ms /\
  (ctx_disk_usage ctx = None -> ctx_memory_usage ctx = None -> ms = []).
Proof.
  assert (Hfire : forall rb, check_trigger rb ctx = true ->
            get (rb_enabled rb) true = true /\
            (t_type (get (rb_trigger rb) empty_trigger) = Some "disk_usage" \/
             t_type (get (rb_trigger rb) empty_trigger) = Some "memory_usage")).
  { intros rb. unfold check_trigger.
    destruct (get (rb_enabled rb) true); simpl; [|discriminate].
    destruct (t_type (get (rb_trigger rb) empty_trigger)) as [ty|]; [|discriminate].
    destruct (String.eqb ty "disk_usage") eqn:Ed;
      [apply String.eqb_eq in Ed; subst; auto|].
    destruct (String.eqb ty "memory_usage") eqn:Em;
      [apply String.eqb_eq in Em; subst; auto|].
    apply String.eqb_neq in Ed, Em.
    destruct ty as [|c0 ty]; [discriminate|].
    intros H. exfalso.
    repeat match type of H with
    | context [match ?x with _ => _ end] => destruct x; try discriminate H
    end; congruence. }
  assert (Hin : forall rb, In rb (find_matching_runbooks rbs ctx) <->
                           In rb rbs /\ check_trigger rb ctx = true).
  { intros rb. induction rbs as [|x rbs IH]; simpl; [tauto|].
    destruct (check_trigger x ctx) eqn:E; simpl; rewrite IH;
      split; intuition congruence. }
  intros ms. split; [exact Hin|]. split.
  - apply Forall_forall. intros rb Hrb. apply Hfire, (proj1 (Hin rb) Hrb).
  - intros Hd Hm. destruct ms as [|rb ms'] eqn:Ems; [reflexivity|].
    exfalso. assert (H : In rb ms) by (rewrite Ems; now left).
    apply Hin in H as [_ H]. revert H. unfold check_trigger.
    destruct (get (rb_enabled rb) true); simpl; [|discriminate].
    unfold check_disk_trigger, check_memory_trigger. rewrite Hd, Hm.
    destruct (t_type (get (rb_trigger rb) empty_trigger)) as [ty|]; [|discriminate].
    repeat match goal with
    | |- context [match ?x with _ => _ end] => destruct x
    end; discriminate.
Qed.

Section Exec.
Variable run_shell : string -> Q -> option Z.

Lemma execute_action_dry (os : Os) (a : Action) :
  exists r, execute_action run_shell true os a = inr (r, os) /\ ar_success r = known_type a /\
            (ar_dry_run r = true -> ar_type r = Some "command").
Proof.
  unfold execute_action, known_type.
  destruct (is_type (a_type a) "alert"); simpl.
  { eexists. split; [reflexivity|]. split; [reflexivity|discriminate]. }
  destruct (is_type (a_type a) "command"); simpl.
  { eexists. split; [reflexivity|]. split; reflexivity. }
  destruct (is_type (a_type a) "wait"); simpl;
    (eexists; split; [reflexivity|]; split; [reflexivity|discriminate]).
Qed.

Lemma run_actions_dry (acts : list Action) (os : Os) :
  exists results, run_actions run_shell true acts os = inr (results, os) /\
    map ar_success results = map known_type acts /\
    Forall (fun r => ar_dry_run r = true -> ar_type r = Some "command") results.
Proof.
  induction acts as [|a acts IH]; simpl; [exists []; auto|].
  destruct (execute_action_dry os a) as (r & Hr & Hs & Hd). rewrite Hr.
  destruct IH as (rs & Hrs & Hm & Hf). rewrite Hrs.
  exists (r :: rs). split; [reflexivity|]. simpl. rewrite Hs, Hm. split; [reflexivity|].
  now constructor.
Qed.

Lemma execute_action_error (dry : bool) (os : Os) (a : Action) (e : PyExc) :
  execute_action run_shell dry os a = inl e -> e = ValueError.
Proof.
  unfold execute_action.
  destruct (is_type (a_type a) "alert"); [discriminate|].
  destruct (is_type (a_type a) "command"); [discriminate|].
  destruct (is_type (a_type a) "wait"); [|discriminate].
  unfold execute_wait, sleep. destruct dry; [discriminate|].
  destruct (Qle_bool 0 (get (a_seconds a) 5%Q)); [discriminate|]. congruence.
Qed.

Lemma run_actions_negative_wait (acts : list Action) (os : Os) :
  Exists (fun a => a_type a = Some "wait" /\ (get (a_seconds a) 5 < 0)%Q) acts ->
  run_actions run_shell false acts os = inl ValueError.
Proof.
  intros H. revert os. induction H as [a acts [Ht Hneg]|a acts _ IH]; intros os; simpl.
  - unfold execute_action. rewrite Ht. simpl.
    unfold execute_wait, sleep.
    assert (E : Qle_bool 0 (get (a_seconds a) 5%Q) = false).
    { apply Bool.not_true_iff_false. intros Hle. apply Qle_bool_iff in Hle. lra. }
    now rewrite E.
  - destruct (execute_action run_shell false os a) as [e|[r os1]] eqn:E.
    + now rewrite (execute_action_error false os a e E).
    + now rewrite IH.
Qed.

(** X: a dry run of a runbook never raises and leaves the system
    untouched (no command spawned, no sleep); it returns one result per
    action, successful exactly for the "alert", "command" and "wait"
    types, and only command results carry the "dry_run" key. *)
Theorem execute_runbook_dry_run (rb : Runbook) (ctx : Context) (os : Os) :
  exists results,
    execute_runbook run_shell rb ctx true os =
      inr (mkExecutionResult (get (rb_name rb) "unknown") results, os) /\
    map ar_success results = map known_type (get (rb_actions rb) []) /\
    Forall (fun r => ar_dry_run r = true -> ar_type r = Some "command") results.
Proof.
  destruct (run_actions_dry (get (rb_actions rb) []) os) as (rs & Hrs & Hm & Hf).
  exists rs. unfold execute_runbook. rewrite Hrs. auto.
Qed.

(** X: in live mode, a runbook with a "wait" action whose duration is
    negative makes [execute_runbook] raise ValueError (from
    [time.sleep]): the exception escapes and no result is returned, also
    for the actions before it. *)
Theorem execute_runbook_negative_wait (rb : Runbook) (ctx : Context) (os : Os)
  (Hneg : Exists (fun a => a_type a = Some "wait" /\ (get (a_seconds a) 5 < 0)%Q)
                 (get (rb_actions rb) [])) :
  execute_runbook run_shell rb ctx false os = inl ValueError.
Proof.
  unfold execute_runbook. now rewrite (run_actions_negative_wait _ os Hneg).
Qed.

End Exec.

Lemma execute_runbook_negative_wait_witness :
  Exists (fun a => a_type a = Some "wait" /\ (get (a_seconds a) 5 < 0)%Q)
    [mkAction (Some "alert") (Some "disk full") None None None None;
     mkAction (Some "wait") None None None None (Some (-1)%Q)] /\
  execute_runbook (fun _ _ => Some 0%Z)
    (mkRunbook (Some "cleanup") None None
       (Some [mkAction (Some "alert") (Some "disk full") None None None None;
              mkAction (Some "wait") None None None None (Some (-1)%Q)]))
    (mkContext None None) false (mkOs ∅ [] []) = inl ValueError.
Proof.
  assert (H : Exists (fun a => a_type a = Some "wait" /\ (get (a_seconds a) 5 < 0)%Q)
    [mkAction (Some "alert") (Some "disk full") None None None None;
     mkAction (Some "wait") None None None None (Some (-1)%Q)]).
  { apply Exists_cons_tl, Exists_cons_hd. split; [reflexivity|]. simpl. lra. }
  split; [exact H|].
  exact (execute_runbook_negative_wait (fun _ _ => Some 0%Z)
    (mkRunbook (Some "cleanup") None None
       (Some [mkAction (Some "alert") (Some "disk full") None None None None;
              mkAction (Some "wait") None None None None (Some (-1)%Q)]))
    (mkContext None None) (mkOs ∅ [] []) H).
Defined.

End EngineMore.
